(** * convert_lm.py: VOTable XML to JSON conversion script

    Shallow embedding of [src/resources/convert_lm.py] and of the library
    calls it makes (json.dumps, xmltodict.parse, os.path.join, open/write,
    print), followed by the properties of the script. *)

From Stdlib Require Import ZArith Ascii String List Lia.
From Stdlib Require Import DecimalString DecimalZ DecimalPos.
From stdpp Require Import base strings list gmap.

Open Scope string_scope.
Open Scope list_scope.

(** ** Python values

    The objects that can reach the JSON encoder.  Strings are sequences of
    code points below 256; dictionaries are insertion ordered, so they are
    association lists; keys are strings, as xmltodict produces them. *)

(** A binary64 float is only ever printed by the script, never computed
    with: a finite float carries the text float.__repr__ yields for it. *)
Inductive pyfloat :=
| FNaN
| FInf
| FNegInf
| FFinite (repr : string).

(** numpy.floating subclasses.  numpy.float64 also inherits from the
    builtin float; the others do not. *)
Inductive np_floating_kind := Float16 | Float32 | Float64 | LongDouble.

(** [NpNdarray] holds an n-dimensional array; its items are the Python
    objects obj.tolist() hands out (int, float, bool, str, or any object
    for dtype=object).  [PObject] stands for an instance of any other
    class (complex, bytes, set, numpy.bool_, ...), named by its class. *)
#[local] Unset Elimination Schemes.
Inductive pyvalue :=
| PNone
| PBool (b : bool)
| PInt (n : Z)
| PFloat (f : pyfloat)
| PStr (s : string)
| PList (lst : list pyvalue)
| PDict (dct : list (string * pyvalue))
| NpInteger (n : Z)
| NpFloating (k : np_floating_kind) (f : pyfloat)
| NpNdarray (a : ndarray)
| PObject (class_name : string)
with ndarray :=
| Nd0 (item : pyvalue)
| NdN (rows : list ndarray).
#[local] Set Elimination Schemes.

(** Induction over values and arrays together, with the items of lists,
    dicts and arrays covered by [Forall]. *)
Section pyvalue_induction.
Variables (P : pyvalue -> Prop) (Q : ndarray -> Prop).
Hypothesis HNone : P PNone.
Hypothesis HBool : forall b, P (PBool b).
Hypothesis HInt : forall n, P (PInt n).
Hypothesis HFloat : forall f, P (PFloat f).
Hypothesis HStr : forall s, P (PStr s).
Hypothesis HList : forall lst, Forall P lst -> P (PList lst).
Hypothesis HDict : forall dct, Forall (fun kv => P kv.2) dct -> P (PDict dct).
Hypothesis HNpInt : forall n, P (NpInteger n).
Hypothesis HNpFloat : forall k f, P (NpFloating k f).
Hypothesis HNpArr : forall a, Q a -> P (NpNdarray a).
Hypothesis HObj : forall c, P (PObject c).
Hypothesis HNd0 : forall x, P x -> Q (Nd0 x).
Hypothesis HNdN : forall rows, Forall Q rows -> Q (NdN rows).

Fixpoint pyvalue_ind (o : pyvalue) : P o :=
  match o with
  | PNone => HNone
  | PBool b => HBool b
  | PInt n => HInt n
  | PFloat f => HFloat f
  | PStr s => HStr s
  | PList lst =>
      HList lst ((fix go (l : list pyvalue) : Forall P l :=
                    match l with
                    | [] => List.Forall_nil P
                    | x :: l' => List.Forall_cons _ x l' (pyvalue_ind x) (go l')
                    end) lst)
  | PDict dct =>
      HDict dct ((fix go (l : list (string * pyvalue))
                    : Forall (fun kv => P kv.2) l :=
                    match l with
                    | [] => List.Forall_nil _
                    | kv :: l' =>
                        List.Forall_cons _ kv l' (pyvalue_ind kv.2) (go l')
                    end) dct)
  | NpInteger n => HNpInt n
  | NpFloating k f => HNpFloat k f
  | NpNdarray a => HNpArr a (ndarray_ind a)
  | PObject c => HObj c
  end
with ndarray_ind (a : ndarray) : Q a :=
  match a with
  | Nd0 x => HNd0 x (pyvalue_ind x)
  | NdN rows =>
      HNdN rows ((fix go (l : list ndarray) : Forall Q l :=
                    match l with
                    | [] => List.Forall_nil Q
                    | r :: l' => List.Forall_cons _ r l' (ndarray_ind r) (go l')
                    end) rows)
  end.
End pyvalue_induction.

(** Errors of the run, by the taxonomy of the specification.
    [SerializationError] is the TypeError (Object of type ... is not JSON
    serializable) raised by json.JSONEncoder.default. *)
Inductive exn :=
| ParseError
| SerializationError (class_name : string)
| IOError.

(** Result of a computation that may raise.  [OutOfFuel] is not a Python
    outcome: it marks a recursion budget of the model that was too small. *)
Inductive result (A : Type) :=
| Ok (a : A)
| Raise (e : exn)
| OutOfFuel.
Arguments Ok {A} a.
Arguments Raise {A} e.
Arguments OutOfFuel {A}.

#[global] Instance result_ret : MRet result := fun A a => Ok a.
#[global] Instance result_bind : MBind result := fun A B f m =>
  match m with
  | Ok a => f a
  | Raise e => Raise e
  | OutOfFuel => OutOfFuel
  end.

Definition from_result {A} (d : A) (r : result A) : A :=
  match r with
  | Ok a => a
  | _ => d
  end.

(** ** numpy: ndarray.tolist

    An a.ndim-levels deep nested list of Python scalars; for a
    0-dimensional array the depth is 0 and the result is the bare item. *)
Fixpoint tolist (a : ndarray) : pyvalue :=
  match a with
  | Nd0 x => x
  | NdN rows => PList (map tolist rows)
  end.

Definition class_of (o : pyvalue) : string :=
  match o with
  | PNone => "NoneType"
  | PBool _ => "bool"
  | PInt _ => "int"
  | PFloat _ => "float"
  | PStr _ => "str"
  | PList _ => "list"
  | PDict _ => "dict"
  | NpInteger _ => "integer"
  | NpFloating Float16 _ => "float16"
  | NpFloating Float32 _ => "float32"
  | NpFloating Float64 _ => "float64"
  | NpFloating LongDouble _ => "longdouble"
  | NpNdarray _ => "ndarray"
  | PObject c => c
  end.

(** ** json: the encoder classes

    A JSONEncoder subclass overrides [default], the hook called on objects
    the encoder does not know how to serialise. *)
Class JSONEncoder := default : pyvalue -> result pyvalue.

(** json.JSONEncoder.default: raises TypeError. *)
Definition JSONEncoder_default (obj : pyvalue) : result pyvalue :=
  Raise (SerializationError (class_of obj)).

(** convert_lm.py, lines 7-17: MyEncoder.default. *)
Definition MyEncoder_default (obj : pyvalue) : result pyvalue :=
  match obj with
  | NpInteger n => Ok (PInt n)
  | NpFloating _ f => Ok (PFloat f)
  | NpNdarray a => Ok (tolist a)
  | _ => JSONEncoder_default obj
  end.

Definition PlainEncoder : JSONEncoder := JSONEncoder_default.
Definition MyEncoder : JSONEncoder := MyEncoder_default.

(** ** json: text of scalars *)

Definition dquote : ascii := "034"%char.
Definition newline : ascii := "010"%char.
Definition backslash : ascii := "\"%char.

Definition hex_digit (n : N) : ascii :=
  match n with
  | 0 => "0" | 1 => "1" | 2 => "2" | 3 => "3" | 4 => "4" | 5 => "5"
  | 6 => "6" | 7 => "7" | 8 => "8" | 9 => "9" | 10 => "a" | 11 => "b"
  | 12 => "c" | 13 => "d" | 14 => "e" | _ => "f"
  end%N%char.

(** backslash, u and the four lower-case hex digits of a code point
    below 256. *)
Definition escape_u (c : ascii) : string :=
  let n := N_of_ascii c in
  String backslash (String "u" (String "0" (String "0"
    (String (hex_digit (n / 16)) (String (hex_digit (n mod 16)) EmptyString))))).

(** The replacement py_encode_basestring_ascii makes for one character:
    quote, backslash and the named control characters get their short
    escapes, every other character outside space..tilde a u-escape. *)
Definition escape_char (c : ascii) : string :=
  let n := N_of_ascii c in
  if (n =? 34)%N then String backslash (String dquote EmptyString)
  else if (n =? 92)%N then String backslash (String backslash EmptyString)
  else if (n =? 8)%N then String backslash "b"
  else if (n =? 12)%N then String backslash "f"
  else if (n =? 10)%N then String backslash "n"
  else if (n =? 13)%N then String backslash "r"
  else if (n =? 9)%N then String backslash "t"
  else if ((n <? 32) || (126 <? n))%N then escape_u c
  else String c EmptyString.

Fixpoint escape_string (s : string) : string :=
  match s with
  | EmptyString => EmptyString
  | String c s' => escape_char c +:+ escape_string s'
  end.

(** json.encoder.py_encode_basestring_ascii (ensure_ascii is on). *)
Definition encode_basestring_ascii (s : string) : string :=
  String dquote (escape_string s +:+ String dquote EmptyString).

(** int.__repr__ *)
Definition intstr (n : Z) : string := NilZero.string_of_int (Z.to_int n).

(** json.encoder.floatstr with allow_nan on. *)
Definition floatstr (f : pyfloat) : string :=
  match f with
  | FNaN => "NaN"
  | FInf => "Infinity"
  | FNegInf => "-Infinity"
  | FFinite r => r
  end.

(** ** json: the recursive encoder, [_make_iterencode] *)

(** newline followed by [indent * level] spaces *)
Definition newline_indent (indent level : nat) : string :=
  String newline (string_of_list_ascii (replicate (indent * level) " "%char)).

Fixpoint join (sep : string) (chunks : list string) : string :=
  match chunks with
  | [] => EmptyString
  | [c] => c
  | c :: cs => c +:+ sep +:+ join sep cs
  end.

(** The text of a non-empty list or dict: opening bracket, the items one
    per line at [level + 1], closing bracket on a line at [level]. *)
Definition bracketed (indent level : nat) (opening closing : string)
    (chunks : list string) : string :=
  opening +:+ newline_indent indent (S level)
    +:+ join ("," +:+ newline_indent indent (S level)) chunks
    +:+ newline_indent indent level +:+ closing.

(** [_iterencode], with [_iterencode_list] and [_iterencode_dict] inlined,
    for a numeric [indent] and the separators that go with it (comma, and
    colon-space).  [fuel] bounds the recursion depth. *)
Fixpoint iterencode (cls : JSONEncoder) (indent fuel level : nat)
    (o : pyvalue) : result string :=
  match fuel with
  | O => OutOfFuel
  | S fuel =>
    match o with
    | PStr s => Ok (encode_basestring_ascii s)
    | PNone => Ok "null"
    | PBool true => Ok "true"
    | PBool false => Ok "false"
    | PInt n => Ok (intstr n)
    | PFloat f => Ok (floatstr f)
    | NpFloating Float64 f => Ok (floatstr f)
    | PList [] => Ok "[]"
    | PList lst =>
        chunks ← mapM (iterencode cls indent fuel (S level)) lst;
        Ok (bracketed indent level "[" "]" chunks)
    | PDict [] => Ok "{}"
    | PDict dct =>
        chunks ← mapM (fun kv =>
                         c ← iterencode cls indent fuel (S level) kv.2;
                         Ok (encode_basestring_ascii kv.1 +:+ ": " +:+ c)) dct;
        Ok (bracketed indent level "{" "}" chunks)
    | _ =>
        o' ← default o;
        iterencode cls indent fuel level o'
    end
  end.

(** Recursion depth the encoder needs on [o] (a hop through [default]
    counts as one level). *)
Fixpoint depth (o : pyvalue) : nat :=
  match o with
  | PList lst => S (list_max (map depth lst))
  | PDict dct => S (list_max (map (fun kv => depth kv.2) dct))
  | NpInteger _ | NpFloating _ _ => 2
  | NpNdarray a => S (depth_nd a)
  | _ => 1
  end
with depth_nd (a : ndarray) : nat :=
  match a with
  | Nd0 x => depth x
  | NdN rows => S (list_max (map depth_nd rows))
  end.

(** json.dumps(o, indent=indent, cls=cls) *)
Definition json_dumps (cls : JSONEncoder) (indent : nat) (o : pyvalue)
    : result string :=
  iterencode cls indent (depth o) 0 o.

(** ** JSON values and their indented text

    The value a JSON text stands for, as json.loads returns it. *)
#[local] Unset Elimination Schemes.
Inductive json :=
| JNull
| JBool (b : bool)
| JInt (n : Z)
| JFloat (f : pyfloat)
| JStr (s : string)
| JArr (items : list json)
| JObj (members : list (string * json)).
#[local] Set Elimination Schemes.

Section json_induction.
Variable P : json -> Prop.
Hypothesis HNull : P JNull.
Hypothesis HBool : forall b, P (JBool b).
Hypothesis HInt : forall n, P (JInt n).
Hypothesis HFloat : forall f, P (JFloat f).
Hypothesis HStr : forall s, P (JStr s).
Hypothesis HArr : forall items, Forall P items -> P (JArr items).
Hypothesis HObj : forall ms, Forall (fun kv => P kv.2) ms -> P (JObj ms).

Fixpoint json_ind (j : json) : P j :=
  match j with
  | JNull => HNull
  | JBool b => HBool b
  | JInt n => HInt n
  | JFloat f => HFloat f
  | JStr s => HStr s
  | JArr items =>
      HArr items ((fix go (l : list json) : Forall P l :=
                     match l with
                     | [] => List.Forall_nil P
                     | x :: l' => List.Forall_cons _ x l' (json_ind x) (go l')
                     end) items)
  | JObj ms =>
      HObj ms ((fix go (l : list (string * json))
                  : Forall (fun kv => P kv.2) l :=
                  match l with
                  | [] => List.Forall_nil _
                  | kv :: l' => List.Forall_cons _ kv l' (json_ind kv.2) (go l')
                  end) ms)
  end.
End json_induction.

(** The text of a JSON value with one item per line, [indent] spaces per
    nesting level, starting at nesting [level]. *)
Fixpoint render (indent level : nat) (j : json) : string :=
  match j with
  | JNull => "null"
  | JBool true => "true"
  | JBool false => "false"
  | JInt n => intstr n
  | JFloat f => floatstr f
  | JStr s => encode_basestring_ascii s
  | JArr [] => "[]"
  | JArr items =>
      bracketed indent level "[" "]" (map (render indent (S level)) items)
  | JObj [] => "{}"
  | JObj ms =>
      bracketed indent level "{" "}"
        (map (fun kv => encode_basestring_ascii kv.1 +:+ ": "
                          +:+ render indent (S level) kv.2) ms)
  end.

(** The JSON value a Python object stands for.  With [fallback] the numpy
    integers, floats and arrays count as their int, float and nested-list
    conversions; without it only the builtin types do (numpy.float64 is a
    builtin float).  An object of any other class has no JSON value: the
    first one met, in document order, is reported. *)
Fixpoint to_json (fallback : bool) (o : pyvalue) : result json :=
  match o with
  | PNone => Ok JNull
  | PBool b => Ok (JBool b)
  | PInt n => Ok (JInt n)
  | PFloat f => Ok (JFloat f)
  | PStr s => Ok (JStr s)
  | PList lst => items ← mapM (to_json fallback) lst; Ok (JArr items)
  | PDict dct =>
      ms ← mapM (fun kv => j ← to_json fallback kv.2; Ok (kv.1, j)) dct;
      Ok (JObj ms)
  | NpFloating Float64 f => Ok (JFloat f)
  | NpInteger n =>
      if fallback then Ok (JInt n) else Raise (SerializationError (class_of o))
  | NpFloating _ f =>
      if fallback then Ok (JFloat f) else Raise (SerializationError (class_of o))
  | NpNdarray a =>
      if fallback then nd_to_json fallback a
      else Raise (SerializationError (class_of o))
  | PObject c => Raise (SerializationError c)
  end
with nd_to_json (fallback : bool) (a : ndarray) : result json :=
  match a with
  | Nd0 x => to_json fallback x
  | NdN rows => items ← mapM (nd_to_json fallback) rows; Ok (JArr items)
  end.

(** The one-dimensional integer array [1, 2, 3], and the text json.dumps
    writes for the list [1, 2, 3] with indent=2. *)
Definition arr123 : pyvalue :=
  NpNdarray (NdN [Nd0 (PInt 1); Nd0 (PInt 2); Nd0 (PInt 3)]).

Definition arr123_text : string := "[
  1,
  2,
  3
]".

(** The encoder class selected by the [fallback] flag of [to_json]. *)
Definition encoder_of (fallback : bool) : JSONEncoder :=
  if fallback then MyEncoder else PlainEncoder.

(** Every value of the structure: the object itself, the values of dicts,
    the items of lists and of arrays, at any depth, in document order. *)
Fixpoint values_of (o : pyvalue) : list pyvalue :=
  o :: match o with
       | PList lst => flat_map values_of lst
       | PDict dct => flat_map (fun kv => values_of kv.2) dct
       | NpNdarray a => items_of a
       | _ => []
       end
with items_of (a : ndarray) : list pyvalue :=
  match a with
  | Nd0 x => values_of x
  | NdN rows => flat_map items_of rows
  end.

(** The types the serializer accepts: string, number, boolean, null,
    mapping, sequence, numpy integer, numpy floating, numpy ndarray. *)
Definition supported_type (o : pyvalue) : bool :=
  match o with
  | PObject _ => false
  | _ => true
  end.

(** The types the encoder handles without the [default] hook. *)
Definition builtin_type (o : pyvalue) : bool :=
  match o with
  | PObject _ | NpInteger _ | NpNdarray _ => false
  | NpFloating Float64 _ => true
  | NpFloating _ _ => false
  | _ => true
  end.

(** ** os.path (posixpath) *)

Definition is_sep (c : ascii) : bool := (N_of_ascii c =? 47)%N.
Definition is_dot (c : ascii) : bool := (N_of_ascii c =? 46)%N.

Definition startswith_sep (s : string) : bool :=
  match s with
  | String c _ => is_sep c
  | EmptyString => false
  end.

Fixpoint endswith_sep (s : string) : bool :=
  match s with
  | EmptyString => false
  | String c EmptyString => is_sep c
  | String _ s' => endswith_sep s'
  end.

Definition is_empty (s : string) : bool :=
  match s with
  | EmptyString => true
  | _ => false
  end.

(** posixpath.join(a, b) *)
Definition path_join (a b : string) : string :=
  if startswith_sep b then b
  else if is_empty a || endswith_sep a then a +:+ b
  else a +:+ "/" +:+ b.

(** [(p[:i], p[i:])] for [i = p.rfind('/') + 1] *)
Fixpoint split_last_sep (p : string) : string * string :=
  match p with
  | EmptyString => (EmptyString, EmptyString)
  | String c p' =>
      let '(h, t) := split_last_sep p' in
      if negb (is_empty h) then (String c h, t)
      else if is_sep c then (String c EmptyString, t)
      else (EmptyString, String c t)
  end.

(** s.rstrip('/') *)
Fixpoint rstrip_sep (s : string) : string :=
  match s with
  | EmptyString => EmptyString
  | String c s' =>
      let r := rstrip_sep s' in
      if is_empty r && is_sep c then EmptyString else String c r
  end.

(** posixpath.dirname(p) *)
Definition dirname (p : string) : string :=
  let head := (split_last_sep p).1 in
  if negb (is_empty head) && negb (is_empty (rstrip_sep head))
  then rstrip_sep head else head.

(** [(t[:i], t[i:])] for [i = t.rfind('.')], if [t] has a dot *)
Fixpoint split_last_dot (t : string) : option (string * string) :=
  match t with
  | EmptyString => None
  | String c t' =>
      match split_last_dot t' with
      | Some (r, e) => Some (String c r, e)
      | None => if is_dot c then Some (EmptyString, t) else None
      end
  end.

Fixpoint all_dots (s : string) : bool :=
  match s with
  | EmptyString => true
  | String c s' => is_dot c && all_dots s'
  end.

(** posixpath.splitext(p): the extension starts at the last dot of the
    last component, leading dots of that component not counting. *)
Definition splitext (p : string) : string * string :=
  let '(h, t) := split_last_sep p in
  match split_last_dot t with
  | Some (r, e) => if all_dots r then (p, EmptyString) else (h +:+ r, e)
  | None => (p, EmptyString)
  end.

(** The path with its extension replaced, in the words of the
    specification: name.xml becomes name.json. *)
Definition replace_extension (p ext : string) : string :=
  (splitext p).1 +:+ ext.

(** convert_lm.py, lines 21-22 and 29: the two paths, both under the
    directory of the script. *)
Definition input_path (data_path : string) : string :=
  path_join data_path "votable_to_json.xml".
Definition output_path (data_path : string) : string :=
  path_join data_path "votable_to_json.json".

(** ** XML documents

    An element as lxml holds it: tag, attributes in document order, the
    text before the first child, and the children, each with the text
    that follows it (its tail). *)
#[local] Unset Elimination Schemes.
Inductive element :=
| Element (tag : string) (attrib : list (string * string)) (text : string)
          (children : list (element * string)).
#[local] Set Elimination Schemes.

Section element_induction.
Variable P : element -> Prop.
Hypothesis HElement : forall tag attrib text children,
  Forall (fun ch => P ch.1) children ->
  P (Element tag attrib text children).

Fixpoint element_ind (e : element) : P e :=
  match e with
  | Element tag attrib text children =>
      HElement tag attrib text children
        ((fix go (l : list (element * string))
            : Forall (fun ch => P ch.1) l :=
            match l with
            | [] => List.Forall_nil _
            | ch :: l' => List.Forall_cons _ ch l' (element_ind ch.1) (go l')
            end) children)
  end.
End element_induction.

Definition tag_of (e : element) : string :=
  let '(Element tag _ _ _) := e in tag.
Definition attrib_of (e : element) : list (string * string) :=
  let '(Element _ attrib _ _) := e in attrib.
Definition children_of (e : element) : list element :=
  let '(Element _ _ _ children) := e in map fst children.

(** ** Python dict, insertion ordered *)

Abbreviation pydict := (list (string * pyvalue)).

Fixpoint dict_get (d : pydict) (k : string) : option pyvalue :=
  match d with
  | [] => None
  | (k', v) :: d' => if String.eqb k' k then Some v else dict_get d' k
  end.

(** d[k] = v: an existing key keeps its position. *)
Fixpoint dict_set (d : pydict) (k : string) (v : pyvalue) : pydict :=
  match d with
  | [] => [(k, v)]
  | (k', v') :: d' =>
      if String.eqb k' k then (k, v) :: d' else (k', v') :: dict_set d' k v
  end.

(** ** xmltodict *)

(** str.isspace for one code point below 256 *)
Definition is_space (c : ascii) : bool :=
  let n := N_of_ascii c in
  ((9 <=? n) && (n <=? 13) || (28 <=? n) && (n <=? 32)
   || (n =? 133) || (n =? 160))%N.

Fixpoint lstrip (s : string) : string :=
  match s with
  | EmptyString => EmptyString
  | String c s' => if is_space c then lstrip s' else s
  end.

Fixpoint rstrip (s : string) : string :=
  match s with
  | EmptyString => EmptyString
  | String c s' =>
      let r := rstrip s' in
      if is_empty r && is_space c then EmptyString else String c r
  end.

(** s.strip() *)
Definition strip (s : string) : string := rstrip (lstrip s).

(** Modelled from the spec: xmltodict.parse is library code, absent from
    src/.  The specification has tag names become keys, nested elements
    nested mappings, repeated siblings ordered sequences, attributes
    string values under keys marked by a reserved prefix, and text
    content strings; the definitions below follow the handler of the
    library for the default options the script uses (attr_prefix @,
    cdata_key #text, strip_whitespace, no force_list).

    [push_data]: the first value under a key is stored as it is, the
    second turns the entry into a list, later ones are appended. *)
Definition push_data (item : option pydict) (key : string) (data : pyvalue)
    : pydict :=
  let item := from_option id [] item in
  match dict_get item key with
  | Some (PList lst) => dict_set item key (PList (lst ++ [data]))
  | Some value => dict_set item key (PList [value; data])
  | None => dict_set item key data
  end.

(** Modelled from the spec: xmltodict startElement (absent from src/):
    the item of an element starts as the dict of its attributes, keys
    prefixed by @, or as None when it has no attribute. *)
Definition start_item (attrib : list (string * string)) : option pydict :=
  match fold_left (fun d kv => dict_set d ("@" +:+ kv.1) (PStr kv.2))
                  attrib [] with
  | [] => None
  | attrs => Some attrs
  end.

(** Modelled from the spec: xmltodict endElement (absent from src/): the
    character data of the element, joined and stripped, None if nothing
    is left. *)
Definition cdata (pieces : list string) : option string :=
  let data := strip (String.concat EmptyString pieces) in
  if is_empty data then None else Some data.

(** Modelled from the spec: xmltodict endElement (absent from src/): the
    value of a finished element is its item, with the text under #text
    if any, or the bare text (or None) when it has no item. *)
Definition end_value (item : option pydict) (data : option string)
    : pyvalue :=
  match item, data with
  | Some it, Some s => PDict (push_data (Some it) "#text" (PStr s))
  | Some it, None => PDict it
  | None, Some s => PStr s
  | None, None => PNone
  end.

(** Modelled from the spec: the xmltodict handler run over an element
    (absent from src/): children are pushed into the item in document
    order, under their tag. *)
Fixpoint element_value (e : element) : pyvalue :=
  let '(Element _ attrib text children) := e in
  let fix walk (chs : list (element * string)) (item : option pydict)
      : option pydict :=
    match chs with
    | [] => item
    | (c, _) :: chs' =>
        walk chs' (Some (push_data item (tag_of c) (element_value c)))
    end in
  end_value (walk children (start_item attrib))
            (cdata (text :: map snd children)).

(** Modelled from the spec: xmltodict.parse (absent from src/), on the
    document etree.tostring writes for the tree, which has the elements,
    attributes and character data of the tree: a dict with the root tag
    as its one key. *)
Definition xmltodict_parse (root : element) : pyvalue :=
  PDict (push_data None (tag_of root) (element_value root)).

(** ** The world of a run: files, standard output, observable actions *)

Record file := File {
  contents : string;
  readable : bool;
  writable : bool }.

Inductive event :=
| EvPrint (text : string)
| EvOpen (path : string)
| EvWrite (path : string) (text : string)
| EvClose (path : string).

(** [creatable p]: a file may be created at [p] (its directory exists
    and can be written to).  [trace] lists the actions, oldest first. *)
Record world := World {
  files : gmap string file;
  creatable : string -> bool;
  stdout : string;
  trace : list event }.

(** Computations of the script: they read and change the world and may
    raise, which ends the run. *)
Definition io (A : Type) : Type := world -> result A * world.

#[global] Instance io_ret : MRet io := fun A a w => (Ok a, w).
#[global] Instance io_bind : MBind io := fun A B f m w =>
  match m w with
  | (Ok a, w') => f a w'
  | (Raise e, w') => (Raise e, w')
  | (OutOfFuel, w') => (OutOfFuel, w')
  end.

(** A computation without effect on the world. *)
Definition lift {A} (r : result A) : io A := fun w => (r, w).

Definition log (ev : event) (w : world) : world :=
  World (files w) (creatable w) (stdout w) (trace w ++ [ev]).

(** print(text) *)
Definition print (text : string) : io unit := fun w =>
  (Ok tt, log (EvPrint text)
            (World (files w) (creatable w)
                   (stdout w +:+ text +:+ String newline EmptyString) (trace w))).

(** open(path, 'w'): truncates the file, or creates it. *)
Definition open_w (path : string) : io unit := fun w =>
  match files w !! path with
  | Some f =>
      if writable f
      then (Ok tt, log (EvOpen path)
                     (World (<[path := File EmptyString (readable f) true]> (files w))
                            (creatable w) (stdout w) (trace w)))
      else (Raise IOError, w)
  | None =>
      if creatable w path
      then (Ok tt, log (EvOpen path)
                     (World (<[path := File EmptyString true true]> (files w))
                            (creatable w) (stdout w) (trace w)))
      else (Raise IOError, w)
  end.

(** file.write(text) on the file opened at [path] *)
Definition file_write (path text : string) : io unit := fun w =>
  match files w !! path with
  | Some f =>
      (Ok tt, log (EvWrite path text)
                (World (<[path := File (contents f +:+ text) (readable f)
                                       (writable f)]> (files w))
                       (creatable w) (stdout w) (trace w)))
  | None => (Raise IOError, w)
  end.

Definition close (path : string) : io unit := fun w =>
  (Ok tt, log (EvClose path) w).

(** with open(path, 'w') as file: body.  The file is closed when the
    body ends, also when it raises. *)
Definition with_open_w {A} (path : string) (body : string -> io A) : io A :=
  fun w =>
    match open_w path w with
    | (Ok _, w1) =>
        let '(r, w2) := body path w1 in
        (r, (close path w2).2)
    | (Raise e, w1) => (Raise e, w1)
    | (OutOfFuel, w1) => (OutOfFuel, w1)
    end.

(** Exit status of the interpreter: 0 when the module body ran to its
    end, 1 when an exception went uncaught. *)
Definition exit_code {A} (r : result A) : Z :=
  match r with
  | Ok _ => 0
  | _ => 1
  end.

(** ** The script *)

Section script.
(** The XML parser of lxml on the bytes of a file: the tree of the
    document, or nothing when the bytes are not well-formed XML. *)
Variable xml_of_bytes : string -> option element.

(** Modelled from the spec: etree.parse is library code, absent from
    src/.  It fails with a ParseError if the file is missing,
    unreadable, or not well-formed XML. *)
Definition etree_parse (path : string) : io element := fun w =>
  match files w !! path with
  | Some f =>
      if readable f then
        match xml_of_bytes (contents f) with
        | Some tree => (Ok tree, w)
        | None => (Raise ParseError, w)
        end
      else (Raise ParseError, w)
  | None => (Raise ParseError, w)
  end.

(** convert_lm.py, lines 24-30: from [raw_json] on. *)
Definition emit (data_path : string) (raw_json : pyvalue) : io unit :=
  pretty_json ← lift (json_dumps MyEncoder 2 raw_json);
  print pretty_json;;
  with_open_w (output_path data_path) (fun file =>
    text ← lift (json_dumps PlainEncoder 2 raw_json);
    file_write file text).

(** convert_lm.py, lines 19-30: the module body; [data_path] is the
    directory of the script. *)
Definition script (data_path : string) : io unit :=
  xml_block ← etree_parse (input_path data_path);
  let raw_json := xmltodict_parse xml_block in
  emit data_path raw_json.
End script.

(** ** Reading JSON text back

    The specification speaks of the texts parsed back as JSON.  This is
    the reader used to state that: the grammar json.loads accepts (JSON,
    and the NaN, Infinity and -Infinity literals), on strings of code
    points below 256.  Objects are read as their members in text order,
    numbers with a fraction or exponent as the float written that way. *)

Inductive token :=
| TLBrace | TRBrace | TLBracket | TRBracket | TComma | TColon
| TScalar (j : json).

Inductive lexstate :=
| LIdle
| LStr (acc : string)
| LEsc (acc : string)
| LUni (acc : string) (n : N) (k : nat)
| LNum (acc : string)
| LWord (acc : string).

Definition snoc (s : string) (c : ascii) : string := s +:+ String c EmptyString.

Definition is_digit (c : ascii) : bool :=
  let n := N_of_ascii c in ((48 <=? n) && (n <=? 57))%N.

Definition is_num_char (c : ascii) : bool :=
  let n := N_of_ascii c in
  (is_digit c || (n =? 46) || (n =? 101) || (n =? 69) || (n =? 43)
   || (n =? 45))%N.

Definition is_letter (c : ascii) : bool :=
  let n := N_of_ascii c in
  ((65 <=? n) && (n <=? 90) || (97 <=? n) && (n <=? 122))%N.

Definition is_json_space (c : ascii) : bool :=
  let n := N_of_ascii c in
  ((n =? 32) || (n =? 9) || (n =? 10) || (n =? 13))%N.

Definition hex_value (c : ascii) : option N :=
  let n := N_of_ascii c in
  if is_digit c then Some (n - 48)%N
  else if ((97 <=? n) && (n <=? 102))%N then Some (n - 87)%N
  else if ((65 <=? n) && (n <=? 70))%N then Some (n - 55)%N
  else None.

Fixpoint skip_digits (s : string) : string :=
  match s with
  | String c s' => if is_digit c then skip_digits s' else s
  | EmptyString => EmptyString
  end.

Definition starts_digit (s : string) : bool :=
  match s with
  | String c _ => is_digit c
  | EmptyString => false
  end.

(** e or E, an optional sign and digits, up to the end *)
Definition exp_part (s : string) : bool :=
  match s with
  | String c s' =>
      if ((N_of_ascii c =? 101) || (N_of_ascii c =? 69))%N then
        let s'' := match s' with
                   | String d t =>
                       if ((N_of_ascii d =? 43) || (N_of_ascii d =? 45))%N
                       then t else s'
                   | EmptyString => s'
                   end in
        starts_digit s'' && is_empty (skip_digits s'')
      else false
  | EmptyString => false
  end.

(** what may follow the integer part of a float: a fraction, an exponent
    or both *)
Definition frac_exp (s : string) : bool :=
  match s with
  | String c s' =>
      if (N_of_ascii c =? 46)%N then
        starts_digit s'
        && (is_empty (skip_digits s') || exp_part (skip_digits s'))
      else exp_part s
  | EmptyString => false
  end.

(** An integer part without leading zero, then a fraction, an exponent
    or both. *)
Definition unsigned_float_literal (s : string) : bool :=
  match s with
  | String c s' =>
      if (N_of_ascii c =? 48)%N then frac_exp s'
      else if is_digit c then frac_exp (skip_digits s')
      else false
  | EmptyString => false
  end.

(** A float literal: an optional minus sign and an unsigned one. *)
Definition float_literal (s : string) : bool :=
  match s with
  | String c s' =>
      if (N_of_ascii c =? 45)%N then unsigned_float_literal s'
      else unsigned_float_literal s
  | EmptyString => false
  end.

(** The number a literal stands for: an int when it is the decimal
    writing of one (or -0), a float when it has a fraction or exponent. *)
Definition number_token (acc : string) : option token :=
  match NilZero.int_of_string acc with
  | Some d =>
      if String.eqb (intstr (Z.of_int d)) acc
      then Some (TScalar (JInt (Z.of_int d)))
      else if String.eqb acc "-0" then Some (TScalar (JInt 0))
      else None
  | None =>
      if float_literal acc then Some (TScalar (JFloat (FFinite acc)))
      else None
  end.

Definition word_token (acc : string) : option token :=
  if String.eqb acc "true" then Some (TScalar (JBool true))
  else if String.eqb acc "false" then Some (TScalar (JBool false))
  else if String.eqb acc "null" then Some (TScalar JNull)
  else if String.eqb acc "NaN" then Some (TScalar (JFloat FNaN))
  else if String.eqb acc "Infinity" then Some (TScalar (JFloat FInf))
  else if String.eqb acc "-Infinity" then Some (TScalar (JFloat FNegInf))
  else None.

(** One character read between tokens. *)
Definition step_idle (c : ascii) : option (lexstate * list token) :=
  let n := N_of_ascii c in
  if is_json_space c then Some (LIdle, [])
  else if (n =? 123)%N then Some (LIdle, [TLBrace])
  else if (n =? 125)%N then Some (LIdle, [TRBrace])
  else if (n =? 91)%N then Some (LIdle, [TLBracket])
  else if (n =? 93)%N then Some (LIdle, [TRBracket])
  else if (n =? 44)%N then Some (LIdle, [TComma])
  else if (n =? 58)%N then Some (LIdle, [TColon])
  else if (n =? 34)%N then Some (LStr EmptyString, [])
  else if (is_digit c || (n =? 45))%N then Some (LNum (String c EmptyString), [])
  else if is_letter c then Some (LWord (String c EmptyString), [])
  else None.

(** The character after a backslash in a string. *)
Definition unescape (c : ascii) : option ascii :=
  let n := N_of_ascii c in
  if ((n =? 34) || (n =? 92) || (n =? 47))%N then Some c
  else if (n =? 98)%N then Some (ascii_of_N 8)
  else if (n =? 102)%N then Some (ascii_of_N 12)
  else if (n =? 110)%N then Some (ascii_of_N 10)
  else if (n =? 114)%N then Some (ascii_of_N 13)
  else if (n =? 116)%N then Some (ascii_of_N 9)
  else None.

(** One step of the tokenizer: the next state and the tokens completed
    by the character. *)
Definition step (st : lexstate) (c : ascii)
    : option (lexstate * list token) :=
  let n := N_of_ascii c in
  match st with
  | LIdle => step_idle c
  | LStr acc =>
      if (n =? 34)%N then Some (LIdle, [TScalar (JStr acc)])
      else if (n =? 92)%N then Some (LEsc acc, [])
      else if (n <? 32)%N then None
      else Some (LStr (snoc acc c), [])
  | LEsc acc =>
      if (n =? 117)%N then Some (LUni acc 0 4, [])
      else c' ← unescape c; Some (LStr (snoc acc c'), [])
  | LUni acc v k =>
      h ← hex_value c;
      let v' := (v * 16 + h)%N in
      match k with
      | 0 => None
      | 1 => if (v' <? 256)%N then Some (LStr (snoc acc (ascii_of_N v')), [])
             else None
      | S k' => Some (LUni acc v' k', [])
      end
  | LNum acc =>
      if is_num_char c then Some (LNum (snoc acc c), [])
      else if String.eqb acc "-" && (n =? 73)%N then Some (LWord "-I", [])
      else t ← number_token acc; p ← step_idle c; Some (p.1, t :: p.2)
  | LWord acc =>
      if is_letter c then Some (LWord (snoc acc c), [])
      else t ← word_token acc; p ← step_idle c; Some (p.1, t :: p.2)
  end.

(** At the end of the text: the token still being read, if any. *)
Definition finish (st : lexstate) : option (list token) :=
  match st with
  | LIdle => Some []
  | LNum acc => t ← number_token acc; Some [t]
  | LWord acc => t ← word_token acc; Some [t]
  | _ => None
  end.

(** The state reached and the tokens completed after reading [s]. *)
Fixpoint run (st : lexstate) (s : string) : option (lexstate * list token) :=
  match s with
  | EmptyString => Some (st, [])
  | String c s' =>
      p ← step st c; q ← run p.1 s'; Some (q.1, (p.2 ++ q.2)%list)
  end.

Definition tokenize (s : string) : option (list token) :=
  p ← run LIdle s; fin ← finish p.1; Some (p.2 ++ fin)%list.

(** Values, array items and object members, by recursive descent over
    the tokens; [fuel] bounds the number of steps. *)
Fixpoint parse_value (fuel : nat) (ts : list token)
    : option (json * list token) :=
  match fuel with
  | O => None
  | S fuel =>
      match ts with
      | TScalar j :: ts' => Some (j, ts')
      | TLBracket :: TRBracket :: ts' => Some (JArr [], ts')
      | TLBracket :: ts' =>
          p ← parse_items fuel ts'; Some (JArr p.1, p.2)
      | TLBrace :: TRBrace :: ts' => Some (JObj [], ts')
      | TLBrace :: ts' =>
          p ← parse_members fuel ts'; Some (JObj p.1, p.2)
      | _ => None
      end
  end
with parse_items (fuel : nat) (ts : list token)
    : option (list json * list token) :=
  match fuel with
  | O => None
  | S fuel =>
      p ← parse_value fuel ts;
      match p.2 with
      | TComma :: ts' => q ← parse_items fuel ts'; Some (p.1 :: q.1, q.2)
      | TRBracket :: ts' => Some ([p.1], ts')
      | _ => None
      end
  end
with parse_members (fuel : nat) (ts : list token)
    : option (list (string * json) * list token) :=
  match fuel with
  | O => None
  | S fuel =>
      match ts with
      | TScalar (JStr k) :: TColon :: ts' =>
          p ← parse_value fuel ts';
          match p.2 with
          | TComma :: ts'' =>
              q ← parse_members fuel ts''; Some ((k, p.1) :: q.1, q.2)
          | TRBrace :: ts'' => Some ([(k, p.1)], ts'')
          | _ => None
          end
      | _ => None
      end
  end.

(** json.loads(s) *)
Definition json_loads (s : string) : option json :=
  ts ← tokenize s;
  p ← parse_value (S (length ts)) ts;
  match p.2 with
  | [] => Some p.1
  | _ => None
  end.


(** Every value of the structure has a type the serializer accepts. *)
Definition all_supported (o : pyvalue) : Prop :=
  Forall (fun x => supported_type x = true) (values_of o).

(** The types an encoder accepts: with the fallback the supported ones,
    without it the builtin ones. *)
Definition accepts (fallback : bool) (o : pyvalue) : bool :=
  if fallback then supported_type o else builtin_type o.

(** The tokens of a sequence of items separated by commas, up to and
    with the closing bracket. *)
Fixpoint seq_tokens {A} (f : A -> list token) (closing : token)
    (l : list A) : list token :=
  match l with
  | [] => [closing]
  | x :: l' =>
      match l' with
      | [] => f x ++ [closing]
      | _ => f x ++ TComma :: seq_tokens f closing l'
      end
  end%list.

(** The tokens of the text of a JSON value. *)
Fixpoint tokens_of (j : json) : list token :=
  match j with
  | JArr items => TLBracket :: seq_tokens tokens_of TRBracket items
  | JObj ms =>
      TLBrace ::
      seq_tokens (fun kv => TScalar (JStr kv.1) :: TColon :: tokens_of kv.2)
                 TRBrace ms
  | _ => [TScalar j]
  end.

(** The finite floats of the value are written as float literals (as
    float.__repr__ writes them). *)
Fixpoint float_reprs_ok (j : json) : bool :=
  match j with
  | JFloat (FFinite r) => float_literal r
  | JArr items => forallb float_reprs_ok items
  | JObj ms => forallb (fun kv => float_reprs_ok kv.2) ms
  | _ => true
  end.

(** A character that ends a number or a word. *)
Definition is_delim (c : ascii) : bool :=
  negb (is_num_char c) && negb (is_letter c).

Fixpoint all_chars (P : ascii -> bool) (s : string) : bool :=
  match s with
  | EmptyString => true
  | String c s' => P c && all_chars P s'
  end.

(** The text starts like a number and holds only characters of numbers. *)
Definition number_like (s : string) : bool :=
  match s with
  | String c s' =>
      (is_digit c || (N_of_ascii c =? 45)%N) && all_chars is_num_char s'
  | EmptyString => false
  end.

(** The tokenizer state [st] completes the tokens [pend] at the end of
    the text and at any delimiter. *)
Definition flushes (st : lexstate) (pend : list token) : Prop :=
  finish st = Some pend /\
  forall c, is_delim c = true ->
    step st c = (p ← step_idle c; Some (p.1, (pend ++ p.2)%list)).

(** Read from between tokens, the text [s] gives the tokens [toks], the
    last of them possibly still to be completed by a delimiter. *)
Definition reads (s : string) (toks : list token) : Prop :=
  exists st done pend,
    run LIdle s = Some (st, done) /\ flushes st pend
    /\ (done ++ pend)%list = toks.

(** The output file can be opened for writing: it exists and is
    writable, or it can be created. *)
Definition can_open_w (path : string) (w : world) : bool :=
  match files w !! path with
  | Some f => writable f
  | None => creatable w path
  end.

(** The world after a run that printed [pretty] and wrote [text] to the
    file at [path]. *)
Definition world_after (path pretty text : string) (w : world) : world :=
  World (<[path := File text
                    (from_option readable true (files w !! path)) true]>
           (files w))
        (creatable w)
        (stdout w +:+ pretty +:+ String newline EmptyString)
        (trace w ++ [EvPrint pretty; EvOpen path; EvWrite path text;
                     EvClose path]).

(** The world after a run that printed [pretty] and failed between
    opening the file at [path] and writing to it. *)
Definition world_truncated (path pretty : string) (w : world) : world :=
  World (<[path := File EmptyString
                    (from_option readable true (files w !! path)) true]>
           (files w))
        (creatable w)
        (stdout w +:+ pretty +:+ String newline EmptyString)
        (trace w ++ [EvPrint pretty; EvOpen path; EvClose path]).

(** Values made of strings, None, dicts and lists only. *)
Fixpoint text_only (o : pyvalue) : bool :=
  match o with
  | PNone | PStr _ => true
  | PList lst => forallb text_only lst
  | PDict dct => forallb (fun kv => text_only kv.2) dct
  | _ => false
  end.

Definition is_list (o : pyvalue) : bool :=
  match o with
  | PList _ => true
  | _ => false
  end.

(** The entry of a key after one more value is pushed under it. *)
Definition pushed (cur : option pyvalue) (data : pyvalue) : pyvalue :=
  match cur with
  | Some (PList lst) => PList (lst ++ [data])
  | Some value => PList [value; data]
  | None => data
  end.

(** The child elements of [e] with tag [t], in document order. *)
Definition children_tagged (t : string) (e : element) : list element :=
  filter (fun c => String.eqb (tag_of c) t = true) (children_of e).

(** First character of an XML name, among the code points below 256: a
    letter, underscore, colon, or a letter of the Latin-1 supplement. *)
Definition is_name_start (c : ascii) : bool :=
  let n := N_of_ascii c in
  (is_letter c || (n =? 95) || (n =? 58)
   || (192 <=? n) && negb (n =? 215) && negb (n =? 247))%N.

Definition xml_name (s : string) : bool :=
  match s with
  | String c _ => is_name_start c
  | EmptyString => false
  end.

(** Well-formedness, as far as names go: tags and attribute names are
    XML names, and no element has two attributes of the same name. *)
Fixpoint well_formed (e : element) : bool :=
  let '(Element tag attrib _ children) := e in
  xml_name tag
  && forallb (fun kv => xml_name kv.1) attrib
  && bool_decide (NoDup (map fst attrib))
  && forallb (fun ch => well_formed ch.1) children.

(** One step of the walk over the children of an element. *)
Definition push_child (item : option pydict) (c : element) : option pydict :=
  Some (push_data item (tag_of c) (element_value c)).

(** The dict of the attributes, keys prefixed by @. *)
Definition attrs_dict (attrib : list (string * string)) (d : pydict)
    : pydict :=
  fold_left (fun d kv => dict_set d ("@" +:+ kv.1) (PStr kv.2)) attrib d.

(** ** Sample inputs *)

(** <a b="1"><c>x</c><c>y</c><b/></a> *)
Definition sample_tree : element :=
  Element "a" [("b", "1")] EmptyString
    [(Element "c" [] "x" [], EmptyString); (Element "c" [] "y" [], EmptyString);
     (Element "b" [] EmptyString [], EmptyString)].

Definition sample_bytes : string := "<a b='1'><c>x</c><c>y</c><b/></a>".

(** A parser that knows the sample document only. *)
Definition sample_parser (bytes : string) : option element :=
  if String.eqb bytes sample_bytes then Some sample_tree else None.

(** A world with the sample document as the input file of a script
    installed in /d, and nothing else. *)
Definition sample_world : world :=
  World {[ "/d/votable_to_json.xml" := File sample_bytes true true ]}
        (fun _ => true) EmptyString [].

(** A world without any file. *)
Definition empty_world : world := World ∅ (fun _ => true) EmptyString [].

(** The outcome of [to_json]: a JSON value when every value of the
    structure is accepted, else the class of one that is not. *)
Definition to_json_outcome (fallback : bool) (r : result json)
    (vs : list pyvalue) : Prop :=
  match r with
  | Ok _ => Forall (fun x => accepts fallback x = true) vs
  | Raise e => exists x, x ∈ vs /\ accepts fallback x = false
                         /\ e = SerializationError (class_of x)
  | OutOfFuel => False
  end.

(** ** Notions used to state further properties *)

(** The document the script gets from its input file, if any. *)
Definition input_tree (xml_of_bytes : string -> option element)
    (data_path : string) (w : world) : option element :=
  match files w !! input_path data_path with
  | Some f => if readable f then xml_of_bytes (contents f) else None
  | None => None
  end.

(** The files left open by a sequence of actions, starting with the
    files [opened]; nothing if a file is opened twice, or written to or
    closed while it is not open. *)
Fixpoint handles (tr : list event) (opened : list string)
    : option (list string) :=
  match tr with
  | [] => Some opened
  | EvPrint _ :: tr' => handles tr' opened
  | EvOpen p :: tr' =>
      if bool_decide (p ∈ opened) then None else handles tr' (p :: opened)
  | EvWrite p _ :: tr' =>
      if bool_decide (p ∈ opened) then handles tr' opened else None
  | EvClose p :: tr' =>
      if bool_decide (p ∈ opened)
      then handles tr' (filter (fun q => q <> p) opened) else None
  end.


(** The first value of the structure, in document order, that the
    encoder does not accept. *)
Definition first_rejected (fallback : bool) (o : pyvalue) : option pyvalue :=
  find (fun x => negb (accepts fallback x)) (values_of o).

(** A world in which the output file of a script installed in /d exists
    and is read-only. *)
Definition readonly_world : world :=
  World {[ "/d/votable_to_json.xml" := File sample_bytes true true;
           "/d/votable_to_json.json" := File "old" true false ]}
        (fun _ => true) EmptyString [].

(** The dicts of the structure have pairwise distinct keys. *)
Fixpoint unique_keys (o : pyvalue) : bool :=
  match o with
  | PDict dct =>
      bool_decide (NoDup (map fst dct))
      && forallb (fun kv => unique_keys kv.2) dct
  | PList lst => forallb unique_keys lst
  | _ => true
  end.

(** The objects of the JSON value have pairwise distinct member names. *)
Fixpoint unique_names (j : json) : bool :=
  match j with
  | JObj ms =>
      bool_decide (NoDup (map fst ms))
      && forallb (fun kv => unique_names kv.2) ms
  | JArr items => forallb unique_names items
  | _ => true
  end.


(** * Properties *)

(** ** The definitions on small inputs *)

Example tolist_2d :
  tolist (NdN [NdN [Nd0 (PInt 1); Nd0 (PInt 2)]; NdN [Nd0 (PInt 3); Nd0 (PInt 4)]])
  = PList [PList [PInt 1; PInt 2]; PList [PInt 3; PInt 4]].
Proof. reflexivity. Qed.

Example tolist_0d : tolist (Nd0 (PFloat (FFinite "2.5"))) = PFloat (FFinite "2.5").
Proof. reflexivity. Qed.

Example dumps_plain_list :
  json_dumps PlainEncoder 2 (PList [PInt 1; PInt 2; PInt 3]) = Ok arr123_text.
Proof. reflexivity. Qed.

Example dumps_plain_ndarray :
  json_dumps PlainEncoder 2 arr123 = Raise (SerializationError "ndarray").
Proof. reflexivity. Qed.

Example dumps_empty :
  json_dumps MyEncoder 2 (PList [PDict []; PList []; PNone; PBool true])
  = Ok "[
  {},
  [],
  null,
  true
]".
Proof. reflexivity. Qed.

Example dumps_escapes :
  encode_basestring_ascii (String newline (String (ascii_of_N 233) "a\b"))
  = String dquote ("\n\u00e9a\\b" +:+ String dquote EmptyString).
Proof. reflexivity. Qed.

Example loads_nested :
  json_loads "[1, [2.5e3, null], {}]"
  = Some (JArr [JInt 1; JArr [JFloat (FFinite "2.5e3"); JNull]; JObj []]).
Proof. reflexivity. Qed.

Example loads_rejects_trailing_comma : json_loads "[1, 2,]" = None.
Proof. reflexivity. Qed.

Example loads_rejects_leading_zero : json_loads "[01]" = None.
Proof. reflexivity. Qed.

Example paths_of_script :
  input_path "/opt/app" = "/opt/app/votable_to_json.xml"
  /\ output_path "/opt/app" = "/opt/app/votable_to_json.json"
  /\ splitext "/opt/app.d/votable_to_json.xml"
     = ("/opt/app.d/votable_to_json", ".xml")
  /\ splitext "/opt/app.d/.hidden" = ("/opt/app.d/.hidden", EmptyString)
  /\ dirname "/opt/app/votable_to_json.xml" = "/opt/app".
Proof. repeat split; reflexivity. Qed.

Example xmltodict_sample :
  xmltodict_parse sample_tree
  = PDict [("a", PDict [("@b", PStr "1");
                        ("c", PList [PStr "x"; PStr "y"]);
                        ("b", PNone)])].
Proof. reflexivity. Qed.

Example xmltodict_text_and_attribute :
  element_value (Element "FIELD" [("name", "ra")] "  deg " [])
  = PDict [("@name", PStr "ra"); ("#text", PStr "deg")].
Proof. reflexivity. Qed.

Example script_on_sample :
  (script sample_parser "/d" sample_world).1 = Ok tt
  /\ exit_code (script sample_parser "/d" sample_world).1 = 0%Z
  /\ map fst (map_to_list (files (script sample_parser "/d" sample_world).2))
     = ["/d/votable_to_json.json"; "/d/votable_to_json.xml"].
Proof. repeat split; vm_compute; reflexivity. Qed.

(** ** The encoder computes the text of the JSON value *)

Lemma mapM_result_cons {A B} (f : A -> result B) x l :
  mapM f (x :: l) = y ← f x; k ← mapM f l; Ok (y :: k).
Proof. reflexivity. Qed.

Lemma mapM_result_map {A B C} (f : B -> result C) (g : A -> B) l :
  mapM f (map g l) = mapM (fun x => f (g x)) l.
Proof.
  induction l as [|x l IH]; [reflexivity|].
  simpl map. by rewrite !mapM_result_cons, IH.
Qed.


(** If every item is encoded as the text of its value, so is the list. *)
Lemma mapM_encode_items {A B} (g : A -> result string) (f : A -> result B)
    (r : B -> string) l :
  Forall (fun x => g x = (j ← f x; Ok (r j))) l ->
  mapM g l = (js ← mapM f l; Ok (map r js)).
Proof.
  induction 1 as [|x l Hx _ IH]; [reflexivity|].
  rewrite !mapM_result_cons, Hx, IH.
  destruct (f x); [|reflexivity..]. simpl.
  destruct (mapM f l); reflexivity.
Qed.

Lemma list_max_map_le {A} (g : A -> nat) (l : list A) n :
  list_max (map g l) <= n -> Forall (fun x => g x <= n) l.
Proof.
  intros H. apply list_max_le in H. rewrite List.Forall_map in H. exact H.
Qed.

Lemma iterencode_to_json fallback indent :
  forall o fuel level, depth o <= fuel ->
    iterencode (encoder_of fallback) indent fuel level o
    = (j ← to_json fallback o; Ok (render indent level j)).
Proof.
  apply (pyvalue_ind
    (fun o => forall fuel level, depth o <= fuel ->
       iterencode (encoder_of fallback) indent fuel level o
       = (j ← to_json fallback o; Ok (render indent level j)))
    (fun a => forall fuel level, depth_nd a <= fuel ->
       iterencode (encoder_of fallback) indent fuel level (tolist a)
       = (j ← nd_to_json fallback a; Ok (render indent level j)))).
  all: try (intros; destruct fuel as [|fuel]; [simpl in *; lia|]; reflexivity).
  - intros b [|fuel] level H; [simpl in *; lia|]. by destruct b.
  - intros lst IH [|fuel] level H; [simpl in *; lia|].
    simpl in H. apply le_S_n, list_max_map_le in H.
    destruct lst as [|x l]; [reflexivity|].
    change (iterencode ?c indent (S fuel) level (PList (x :: l)))
      with (chunks ← mapM (iterencode c indent fuel (S level)) (x :: l);
            Ok (bracketed indent level "[" "]" chunks)).
    rewrite (mapM_encode_items _ (to_json fallback)
               (render indent (S level))).
    2: { rewrite Forall_forall in IH, H |- *. intros y Hy.
         by apply IH, H. }
    change (to_json fallback (PList (x :: l)))
      with (items ← mapM (to_json fallback) (x :: l); Ok (JArr items)).
    rewrite mapM_result_cons.
    destruct (to_json fallback x); [|reflexivity..]. simpl.
    destruct (mapM (to_json fallback) l); reflexivity.
  - intros dct IH [|fuel] level H; [simpl in *; lia|].
    simpl in H. apply le_S_n, list_max_map_le in H.
    destruct dct as [|x l]; [reflexivity|].
    change (iterencode ?cls indent (S fuel) level (PDict (x :: l)))
      with (chunks ← mapM (fun kv =>
                     t ← iterencode cls indent fuel (S level) kv.2;
                     Ok (encode_basestring_ascii kv.1 +:+ ": " +:+ t)) (x :: l);
            Ok (bracketed indent level "{" "}" chunks)).
    rewrite (mapM_encode_items _
               (fun kv => j ← to_json fallback kv.2; Ok (kv.1, j))
               (fun kv => encode_basestring_ascii kv.1 +:+ ": "
                            +:+ render indent (S level) kv.2)).
    2: { rewrite Forall_forall in IH, H |- *. intros y Hy.
         rewrite (IH y Hy fuel (S level) (H y Hy)).
         by destruct (to_json fallback y.2). }
    change (to_json fallback (PDict (x :: l)))
      with (ms ← mapM (fun kv => j ← to_json fallback kv.2; Ok (kv.1, j))
                  (x :: l); Ok (JObj ms)).
    rewrite mapM_result_cons.
    destruct (to_json fallback x.2); [|reflexivity..]. simpl.
    destruct (mapM _ l); reflexivity.
  - intros n [|[|fuel]] level H; [simpl in *; lia..|]. by destruct fallback.
  - intros k f [|[|fuel]] level H; [simpl in *; lia..|].
    by destruct fallback, k.
  - intros a IH [|fuel] level H; [simpl in *; lia|].
    simpl in H. apply le_S_n in H.
    destruct fallback; [|reflexivity].
    change (iterencode ?c indent (S fuel) level (NpNdarray a))
      with (iterencode c indent fuel level (tolist a)).
    by rewrite IH.
  - intros c [|fuel] level H; [simpl in *; lia|]. by destruct fallback.
  - intros x IH fuel level H. by apply IH.
  - intros rows IH [|fuel] level H; [simpl in *; lia|].
    simpl in H. apply le_S_n, list_max_map_le in H.
    destruct rows as [|x l]; [reflexivity|].
    change (iterencode ?c indent (S fuel) level (tolist (NdN (x :: l))))
      with (chunks ← mapM (iterencode c indent fuel (S level))
                       (map tolist (x :: l));
            Ok (bracketed indent level "[" "]" chunks)).
    rewrite mapM_result_map.
    rewrite (mapM_encode_items _ (nd_to_json fallback)
               (render indent (S level))).
    2: { rewrite Forall_forall in IH, H |- *. intros y Hy.
         by apply IH, H. }
    change (nd_to_json fallback (NdN (x :: l)))
      with (items ← mapM (nd_to_json fallback) (x :: l); Ok (JArr items)).
    rewrite mapM_result_cons.
    destruct (nd_to_json fallback x); [|reflexivity..]. simpl.
    destruct (mapM (nd_to_json fallback) l); reflexivity.
Qed.

Lemma json_dumps_to_json fallback indent o :
  json_dumps (encoder_of fallback) indent o
  = (j ← to_json fallback o; Ok (render indent 0 j)).
Proof. by apply iterencode_to_json. Qed.

(** ** Which structures have a JSON value *)

Lemma mapM_result_cases {A B} (f : A -> result B) (G : A -> Prop)
    (E : A -> exn -> Prop) l :
  Forall (fun x => match f x with
                   | Ok _ => G x
                   | Raise e => E x e
                   | OutOfFuel => False
                   end) l ->
  match mapM f l with
  | Ok _ => Forall G l
  | Raise e => exists x, x ∈ l /\ E x e
  | OutOfFuel => False
  end.
Proof.
  induction 1 as [|x l Hx _ IH]; [by constructor|].
  rewrite mapM_result_cons. destruct (f x) as [y|e|]; simpl.
  - destruct (mapM f l) as [k|e|]; simpl.
    + by constructor.
    + destruct IH as (z & Hz & He). exists z. split; [by right|done].
    + done.
  - exists x. split; [by left|done].
  - done.
Qed.

Lemma elem_of_flat_map {A B} (f : A -> list B) l x y :
  x ∈ l -> y ∈ f x -> y ∈ flat_map f l.
Proof.
  rewrite !list_elem_of_In, in_flat_map. intros ? ?. by exists x.
Qed.

Lemma to_json_outcome_items {A B} fallback (f : A -> result B)
    (vals : A -> list pyvalue) l :
  Forall (fun x => match f x with
                   | Ok _ => Forall (fun v => accepts fallback v = true) (vals x)
                   | Raise e => exists v, v ∈ vals x /\ accepts fallback v = false
                                          /\ e = SerializationError (class_of v)
                   | OutOfFuel => False
                   end) l ->
  match mapM f l with
  | Ok _ => Forall (fun v => accepts fallback v = true) (flat_map vals l)
  | Raise e => exists v, v ∈ flat_map vals l /\ accepts fallback v = false
                         /\ e = SerializationError (class_of v)
  | OutOfFuel => False
  end.
Proof.
  intros H.
  pose proof (mapM_result_cases f
    (fun x => Forall (fun v => accepts fallback v = true) (vals x))
    (fun x e => exists v, v ∈ vals x /\ accepts fallback v = false
                          /\ e = SerializationError (class_of v)) l H) as Hm.
  destruct (mapM f l) as [k|e|]; [|..|done].
  - by apply Forall_flat_map.
  - destruct Hm as (x & Hx & v & Hv & Hbad & He).
    exists v. split; [by eapply elem_of_flat_map|done].
Qed.

Lemma to_json_cases fallback :
  forall o, to_json_outcome fallback (to_json fallback o) (values_of o).
Proof.
  apply (pyvalue_ind
    (fun o => to_json_outcome fallback (to_json fallback o) (values_of o))
    (fun a => to_json_outcome fallback (nd_to_json fallback a) (items_of a))).
  all: try (intros; destruct fallback; simpl; by repeat constructor).
  - intros lst IH.
    pose proof (to_json_outcome_items fallback _ values_of lst IH) as Hm.
    unfold to_json_outcome. simpl.
    destruct (mapM (to_json fallback) lst) as [k|e|]; simpl; [|..|done].
    + constructor; [by destruct fallback|done].
    + destruct Hm as (v & Hv & Hbad). exists v. split; [by right|done].
  - intros dct IH.
    pose proof (to_json_outcome_items fallback
      (fun kv => j ← to_json fallback kv.2; Ok (kv.1, j))
      (fun kv => values_of kv.2) dct) as Hm.
    unfold to_json_outcome. simpl.
    destruct (mapM _ dct) as [k|e|]; simpl.
    + constructor; [by destruct fallback|]. apply Hm.
      eapply Forall_impl; [exact IH|]. intros kv Hkv.
      unfold to_json_outcome in Hkv. by destruct (to_json fallback kv.2).
    + destruct Hm as (v & Hv & Hbad).
      { eapply Forall_impl; [exact IH|]. intros kv Hkv.
        unfold to_json_outcome in Hkv. by destruct (to_json fallback kv.2). }
      exists v. split; [by right|done].
    + apply Hm. eapply Forall_impl; [exact IH|]. intros kv Hkv.
      unfold to_json_outcome in Hkv. by destruct (to_json fallback kv.2).
  - intros n. destruct fallback; simpl; [by repeat constructor|].
    exists (NpInteger n). by repeat constructor.
  - intros k f. destruct fallback, k; simpl; try by repeat constructor.
    + exists (NpFloating Float16 f). by repeat constructor.
    + exists (NpFloating Float32 f). by repeat constructor.
    + exists (NpFloating LongDouble f). by repeat constructor.
  - intros a IH. destruct fallback; simpl.
    + unfold to_json_outcome in IH |- *.
      destruct (nd_to_json true a) as [j|e|]; [|..|done].
      * by constructor.
      * destruct IH as (v & Hv & Hbad). exists v. split; [by right|done].
    + exists (NpNdarray a). by repeat constructor.
  - intros c. exists (PObject c). destruct fallback; by repeat constructor.
  - intros rows IH.
    pose proof (to_json_outcome_items fallback _ items_of rows IH) as Hm.
    unfold to_json_outcome. simpl.
    by destruct (mapM (nd_to_json fallback) rows).
Qed.


(** ** Strings *)

Lemma str_app_cons (x : ascii) (a b : string) :
  String x a +:+ b = String x (a +:+ b).
Proof. reflexivity. Qed.

Lemma str_app_nil_l (b : string) : EmptyString +:+ b = b.
Proof. reflexivity. Qed.

Lemma str_app_assoc (a b c : string) : (a +:+ b) +:+ c = a +:+ (b +:+ c).
Proof.
  induction a as [|x a IH]; [done|]. by rewrite !str_app_cons, IH.
Qed.

Lemma str_app_nil_r (a : string) : a +:+ EmptyString = a.
Proof. induction a as [|x a IH]; [done|]. by rewrite str_app_cons, IH. Qed.

Lemma snoc_app (a b : string) (c : ascii) :
  snoc a c +:+ b = a +:+ String c b.
Proof. unfold snoc. by rewrite str_app_assoc. Qed.

(** ** The tokenizer on the text the encoder writes *)

Lemma run_cons st c s :
  run st (String c s)
  = (p ← step st c; q ← run p.1 s; Some (q.1, (p.2 ++ q.2)%list)).
Proof. reflexivity. Qed.

Lemma run_app st s1 s2 :
  run st (s1 +:+ s2)
  = (p ← run st s1; q ← run p.1 s2; Some (q.1, (p.2 ++ q.2)%list)).
Proof.
  revert st. induction s1 as [|c s1 IH]; intros st.
  - rewrite str_app_nil_l. simpl. by destruct (run st s2) as [[] |].
  - rewrite str_app_cons, !run_cons.
    destruct (step st c) as [[st1 t1]|]; [|done]. simpl.
    rewrite IH. destruct (run st1 s1) as [[st2 t2]|]; [|done]. simpl.
    destruct (run st2 s2) as [[st3 t3]|]; [|done]. simpl.
    by rewrite app_assoc.
Qed.

Lemma run_escape_char c acc :
  run (LStr acc) (escape_char c) = Some (LStr (snoc acc c), []).
Proof.
  destruct c as [[] [] [] [] [] [] [] []]; reflexivity.
Qed.

Lemma run_escape_string s acc :
  run (LStr acc) (escape_string s) = Some (LStr (acc +:+ s), []).
Proof.
  revert acc. induction s as [|c s IH]; intros acc; simpl.
  - by rewrite str_app_nil_r.
  - rewrite run_app, run_escape_char. simpl. rewrite IH. simpl.
    by rewrite snoc_app.
Qed.

Lemma run_basestring s :
  run LIdle (encode_basestring_ascii s) = Some (LIdle, [TScalar (JStr s)]).
Proof.
  unfold encode_basestring_ascii.
  rewrite run_cons. change (step LIdle dquote) with (Some (LStr EmptyString, @nil token)).
  simpl. rewrite run_app, run_escape_string. reflexivity.
Qed.

(** *** Numbers *)

Lemma run_num_chars s acc :
  all_chars is_num_char s = true ->
  run (LNum acc) s = Some (LNum (acc +:+ s), []).
Proof.
  revert acc. induction s as [|c s IH]; intros acc H.
  - by rewrite str_app_nil_r.
  - simpl in H. apply andb_prop in H as [Hc Hs].
    rewrite run_cons. simpl. rewrite Hc. simpl.
    rewrite (IH _ Hs). simpl. by rewrite snoc_app.
Qed.

Lemma run_number_like s :
  number_like s = true -> run LIdle s = Some (LNum s, []).
Proof.
  destruct s as [|c s]; [done|]. simpl.
  intros [Hc Hs]%andb_prop.
  assert (step_idle c = Some (LNum (String c EmptyString), [])) as ->.
  { unfold step_idle. revert Hc.
    destruct c as [[] [] [] [] [] [] [] []]; simpl; done. }
  simpl. by rewrite (run_num_chars _ _ Hs).
Qed.

Lemma digit_num_char c : is_digit c = true -> is_num_char c = true.
Proof. unfold is_num_char. by intros ->. Qed.

Lemma all_chars_impl (P Q : ascii -> bool) s :
  (forall c, P c = true -> Q c = true) ->
  all_chars P s = true -> all_chars Q s = true.
Proof.
  intros HPQ. induction s as [|c s IH]; [done|]. simpl.
  intros [Hc Hs]%andb_prop. by rewrite (HPQ _ Hc), IH.
Qed.

Lemma string_of_uint_digits d :
  all_chars is_digit (NilEmpty.string_of_uint d) = true.
Proof. induction d; simpl; by rewrite ?IHd. Qed.

Lemma to_uint_number_like p :
  number_like (NilEmpty.string_of_uint (Pos.to_uint p)) = true.
Proof.
  pose proof (Unsigned.to_uint_nonnil p) as Hnil.
  pose proof (string_of_uint_digits (Pos.to_uint p)) as Hd.
  destruct (Pos.to_uint p); [done|..]; simpl in *;
    by apply (all_chars_impl is_digit is_num_char), Hd; apply digit_num_char.
Qed.

Lemma string_of_uint_nonnil d :
  d <> Decimal.Nil -> NilZero.string_of_uint d = NilEmpty.string_of_uint d.
Proof. by destruct d. Qed.

Lemma intstr_number_like n : number_like (intstr n) = true.
Proof.
  unfold intstr. destruct n as [|p|p]; [done|..]; simpl.
  - rewrite string_of_uint_nonnil by apply Unsigned.to_uint_nonnil.
    apply to_uint_number_like.
  - rewrite string_of_uint_nonnil by apply Unsigned.to_uint_nonnil.
    pose proof (Unsigned.to_uint_nonnil p) as Hnil.
    pose proof (string_of_uint_digits (Pos.to_uint p)) as Hd.
    by apply (all_chars_impl is_digit is_num_char), Hd; apply digit_num_char.
Qed.

Lemma number_token_intstr n :
  number_token (intstr n) = Some (TScalar (JInt n)).
Proof.
  unfold number_token, intstr.
  rewrite NilZero.isi.
  - by rewrite DecimalZ.of_to, String.eqb_refl.
  - destruct n; simpl; [done| |done].
    intros [= H]. by apply Unsigned.to_uint_nonnil in H.
  - destruct n; simpl; [done..|].
    intros [= H]. by apply Unsigned.to_uint_nonnil in H.
Qed.

Lemma all_num_skip_digits s :
  all_chars is_num_char (skip_digits s) = true ->
  all_chars is_num_char s = true.
Proof.
  induction s as [|c s IH]; [done|]. simpl.
  destruct (is_digit c) eqn:Hc; [|done].
  intros H. by rewrite (digit_num_char _ Hc), IH.
Qed.

Lemma not_digits_skip_digits s :
  all_chars is_digit (skip_digits s) = false ->
  all_chars is_digit s = false.
Proof.
  induction s as [|c s IH]; [done|]. simpl.
  destruct (is_digit c) eqn:Hc; simpl; [exact IH|done].
Qed.

Lemma skip_digits_empty s :
  is_empty (skip_digits s) = true -> all_chars is_num_char s = true.
Proof.
  intros H. apply all_num_skip_digits. by destruct (skip_digits s).
Qed.

Lemma N_of_ascii_eqb c k :
  (N_of_ascii c =? k)%N = true -> c = ascii_of_N k.
Proof.
  intros <-%N.eqb_eq. by rewrite ascii_N_embedding.
Qed.

Lemma exp_part_spec s :
  exp_part s = true ->
  all_chars is_num_char s = true /\ all_chars is_digit s = false.
Proof.
  destruct s as [|c s]; [done|]. unfold exp_part.
  destruct ((N_of_ascii c =? 101) || (N_of_ascii c =? 69))%N eqn:Hc; [|done].
  intros [_ Hs]%andb_prop. apply skip_digits_empty in Hs.
  assert (is_num_char c = true /\ is_digit c = false) as [Hn Hd].
  { apply orb_prop in Hc as [->%N_of_ascii_eqb| ->%N_of_ascii_eqb]; done. }
  simpl. rewrite Hn, Hd. split; [|done]. simpl.
  destruct s as [|d t]; [done|].
  destruct ((N_of_ascii d =? 43) || (N_of_ascii d =? 45))%N eqn:Hsign;
    [|done].
  simpl. rewrite Hs, andb_true_r.
  apply orb_prop in Hsign as [->%N_of_ascii_eqb| ->%N_of_ascii_eqb]; done.
Qed.

Lemma frac_exp_spec s :
  frac_exp s = true ->
  all_chars is_num_char s = true /\ all_chars is_digit s = false.
Proof.
  destruct s as [|c s]; [done|]. unfold frac_exp.
  destruct (N_of_ascii c =? 46)%N eqn:Hc; [|apply exp_part_spec].
  apply N_of_ascii_eqb in Hc as ->. simpl.
  intros [_ H]%andb_prop. split; [|done].
  apply all_num_skip_digits.
  apply orb_prop in H as [H|H].
  - by destruct (skip_digits s).
  - by apply exp_part_spec.
Qed.

Lemma unsigned_float_literal_spec s :
  unsigned_float_literal s = true ->
  starts_digit s = true /\ all_chars is_num_char s = true
  /\ all_chars is_digit s = false.
Proof.
  destruct s as [|c s]; [done|]. unfold unsigned_float_literal.
  destruct (N_of_ascii c =? 48)%N eqn:Hc.
  - apply N_of_ascii_eqb in Hc as ->. simpl.
    intros [Hn Hd]%frac_exp_spec. by rewrite Hd.
  - destruct (is_digit c) eqn:Hd; [|done].
    intros [Hn Hnd]%frac_exp_spec. simpl.
    rewrite Hd, (digit_num_char _ Hd). simpl.
    by rewrite all_num_skip_digits, not_digits_skip_digits.
Qed.

Lemma uint_of_string_not_digits s :
  all_chars is_digit s = false -> NilEmpty.uint_of_string s = None.
Proof.
  induction s as [|c s IH]; [done|]. simpl.
  destruct (NilEmpty.uint_of_string s) as [d|] eqn:Hs; [|done].
  destruct (is_digit c) eqn:Hc; simpl.
  - intros H. by specialize (IH H).
  - intros _. revert Hc.
    destruct c as [[] [] [] [] [] [] [] []]; simpl; done.
Qed.

Lemma ascii_eqb_minus c :
  Ascii.eqb c "-" = (N_of_ascii c =? 45)%N.
Proof. destruct c as [[] [] [] [] [] [] [] []]; reflexivity. Qed.

Lemma float_literal_spec r :
  float_literal r = true ->
  number_like r = true /\ NilZero.int_of_string r = None.
Proof.
  destruct r as [|c s]; [done|]. unfold float_literal.
  unfold NilZero.int_of_string. rewrite ascii_eqb_minus.
  destruct (N_of_ascii c =? 45)%N eqn:Hc.
  - intros (Hsd & Hn & Hd)%unsigned_float_literal_spec. simpl.
    rewrite Hc, Hn, orb_true_r. split; [done|].
    unfold NilZero.uint_of_string.
    rewrite (uint_of_string_not_digits _ Hd). by destruct s.
  - intros (Hsd & Hn & Hd)%unsigned_float_literal_spec.
    simpl in Hsd, Hn. apply andb_prop in Hn as [_ Hn].
    simpl. rewrite Hsd, Hn. split; [done|].
    change (uint_of_char c (NilEmpty.uint_of_string s))
      with (NilEmpty.uint_of_string (String c s)).
    by rewrite (uint_of_string_not_digits _ Hd).
Qed.

Lemma number_token_float r :
  float_literal r = true ->
  number_token r = Some (TScalar (JFloat (FFinite r))).
Proof.
  intros H. unfold number_token.
  destruct (float_literal_spec r H) as [_ ->]. by rewrite H.
Qed.

(** *** Tokens completed by what follows them *)

Lemma flushes_idle : flushes LIdle [].
Proof.
  split; [done|]. intros c _. simpl. by destruct (step_idle c) as [[] |].
Qed.

Lemma delim_not_num c : is_delim c = true -> is_num_char c = false.
Proof.
  unfold is_delim. by intros [->%negb_true_iff _]%andb_prop.
Qed.

Lemma delim_not_letter c : is_delim c = true -> is_letter c = false.
Proof.
  unfold is_delim. by intros [_ ->%negb_true_iff]%andb_prop.
Qed.

Lemma letter_I c : (N_of_ascii c =? 73)%N = true -> is_letter c = true.
Proof. by intros ->%N_of_ascii_eqb. Qed.

Lemma flushes_num acc t : number_token acc = Some t -> flushes (LNum acc) [t].
Proof.
  intros Ht. split; [simpl; by rewrite Ht|].
  intros c Hc. simpl. rewrite (delim_not_num _ Hc), Ht.
  destruct (N_of_ascii c =? 73)%N eqn:HI.
  { apply letter_I in HI. by rewrite (delim_not_letter _ Hc) in HI. }
  by rewrite andb_false_r.
Qed.

Lemma flushes_word acc t : word_token acc = Some t -> flushes (LWord acc) [t].
Proof.
  intros Ht. split; [simpl; by rewrite Ht|].
  intros c Hc. simpl. by rewrite (delim_not_letter _ Hc), Ht.
Qed.

Lemma reads_tokenize s toks : reads s toks -> tokenize s = Some toks.
Proof.
  intros (st & done & pend & Hrun & [Hfin _] & <-).
  unfold tokenize. rewrite Hrun. simpl. by rewrite Hfin.
Qed.

Lemma reads_then_delim s toks c rest :
  reads s toks -> is_delim c = true ->
  run LIdle (s +:+ String c rest)
  = (q ← run LIdle (String c rest); Some (q.1, (toks ++ q.2)%list)).
Proof.
  intros (st & done & pend & Hrun & [_ Hstep] & <-) Hc.
  rewrite run_app, Hrun. cbn -[run step]. rewrite !run_cons, (Hstep c Hc).
  change (step LIdle c) with (step_idle c).
  destruct (step_idle c) as [[st1 t1]|]; [|done]. simpl.
  destruct (run st1 rest) as [[st2 t2]|]; [|done]. simpl.
  by rewrite !app_assoc.
Qed.

Lemma reads_closed s toks :
  run LIdle s = Some (LIdle, toks) -> reads s toks.
Proof.
  intros H. exists LIdle, toks, []. split; [done|].
  split; [apply flushes_idle|apply app_nil_r].
Qed.

Lemma reads_after a ta b tb :
  run LIdle a = Some (LIdle, ta) -> reads b tb ->
  reads (a +:+ b) (ta ++ tb)%list.
Proof.
  intros Ha (st & done & pend & Hrun & Hfl & <-).
  exists st, (ta ++ done)%list, pend. rewrite run_app, Ha. simpl.
  rewrite Hrun. simpl. by rewrite app_assoc.
Qed.

(** *** Scalars *)

Lemma reads_scalar indent level j :
  match j with JArr _ | JObj _ => False | _ => True end ->
  float_reprs_ok j = true ->
  reads (render indent level j) [TScalar j].
Proof.
  destruct j as [|[]|n|[| | |r]|s|?|?]; try done; intros _ Hok; simpl.
  1-3, 5-7:
    by (eexists _, [], _; split; [reflexivity|];
        split; [by apply flushes_word|done]).
  - exists (LNum (intstr n)), [], [TScalar (JInt n)].
    split; [apply run_number_like, intstr_number_like|].
    split; [apply flushes_num, number_token_intstr|done].
  - exists (LNum r), [], [TScalar (JFloat (FFinite r))].
    split; [by apply run_number_like, float_literal_spec|].
    split; [by apply flushes_num, number_token_float|done].
  - apply reads_closed, run_basestring.
Qed.

(** *** Lists and dicts *)

Lemma run_skip c rest :
  step_idle c = Some (LIdle, []) ->
  run LIdle (String c rest) = run LIdle rest.
Proof.
  intros Hc. rewrite run_cons. change (step LIdle c) with (step_idle c).
  rewrite Hc. simpl. by destruct (run LIdle rest) as [[] |].
Qed.

Lemma run_punct c t rest :
  step_idle c = Some (LIdle, [t]) ->
  run LIdle (String c rest)
  = (q ← run LIdle rest; Some (q.1, t :: q.2)).
Proof.
  intros Hc. rewrite run_cons. change (step LIdle c) with (step_idle c).
  by rewrite Hc.
Qed.

Lemma run_spaces n rest :
  run LIdle (string_of_list_ascii (replicate n " "%char) +:+ rest)
  = run LIdle rest.
Proof.
  induction n as [|n IH]; [done|]. simpl replicate. simpl string_of_list_ascii.
  rewrite str_app_cons. by rewrite run_skip.
Qed.

Lemma run_newline_indent indent level rest :
  run LIdle (newline_indent indent level +:+ rest) = run LIdle rest.
Proof.
  unfold newline_indent. rewrite str_app_cons, run_skip by done.
  apply run_spaces.
Qed.

Lemma reads_then_newline s toks indent level rest :
  reads s toks ->
  run LIdle (s +:+ newline_indent indent level +:+ rest)
  = (q ← run LIdle rest; Some (q.1, (toks ++ q.2)%list)).
Proof.
  intros Hs. unfold newline_indent at 1. rewrite str_app_cons.
  rewrite (reads_then_delim _ _ _ _ Hs) by done.
  by rewrite run_skip, run_spaces.
Qed.

Lemma join_cons2 sep (a b : string) l :
  join sep (a :: b :: l) = a +:+ sep +:+ join sep (b :: l).
Proof. reflexivity. Qed.

(** The items of a list or dict, each on its line, then the closing
    bracket on a line of its own. *)
Lemma run_items {A} (txt : A -> string) (toks : A -> list token)
    indent level level' (cc : ascii) (closing : token) l rest :
  step_idle cc = Some (LIdle, [closing]) ->
  Forall (fun x => reads (txt x) (toks x)) l -> l <> [] ->
  run LIdle (join ("," +:+ newline_indent indent level) (map txt l)
             +:+ newline_indent indent level' +:+ String cc rest)
  = (q ← run LIdle rest;
     Some (q.1, (seq_tokens toks closing l ++ q.2)%list)).
Proof.
  intros Hcc Hl. induction Hl as [|x l Hx Hl IH]; [done|]. intros _.
  destruct l as [|y l].
  - simpl map. simpl join. rewrite (reads_then_newline _ _ _ _ _ Hx).
    rewrite (run_punct _ _ _ Hcc). simpl.
    destruct (run LIdle rest) as [[st t]|]; [|done]. simpl.
    by rewrite <- app_assoc.
  - change (map txt (x :: y :: l)) with (txt x :: txt y :: map txt l).
    rewrite join_cons2, !str_app_assoc, str_app_cons, str_app_nil_l.
    rewrite (reads_then_delim _ _ _ _ Hx) by done.
    rewrite (run_punct _ TComma) by done.
    rewrite run_newline_indent.
    change (txt y :: map txt l) with (map txt (y :: l)).
    rewrite IH by done.
    destruct (run LIdle rest) as [[st t]|]; [|done]. simpl.
    by rewrite <- app_assoc.
Qed.

Lemma run_bracketed {A} (txt : A -> string) (toks : A -> list token)
    indent level (oc cc : ascii) (opening closing : token) l :
  step_idle oc = Some (LIdle, [opening]) ->
  step_idle cc = Some (LIdle, [closing]) ->
  Forall (fun x => reads (txt x) (toks x)) l -> l <> [] ->
  run LIdle (bracketed indent level (String oc EmptyString) (String cc EmptyString) (map txt l))
  = Some (LIdle, opening :: seq_tokens toks closing l).
Proof.
  intros Hoc Hcc Hl Hne. unfold bracketed.
  rewrite str_app_cons, str_app_nil_l, (run_punct _ _ _ Hoc).
  rewrite run_newline_indent.
  rewrite (run_items txt toks _ _ _ cc closing l EmptyString Hcc Hl Hne).
  simpl. by rewrite app_nil_r.
Qed.

(** The tokenizer reads the text of a JSON value as its tokens. *)
Lemma reads_render indent :
  forall j level, float_reprs_ok j = true ->
    reads (render indent level j) (tokens_of j).
Proof.
  apply (json_ind (fun j => forall level, float_reprs_ok j = true ->
                     reads (render indent level j) (tokens_of j))).
  1-5: intros; by apply reads_scalar.
  - intros items IH level Hok. simpl in Hok.
    destruct items as [|x l]; [by apply reads_closed|].
    apply reads_closed.
    apply (run_bracketed (render indent (S level)) tokens_of
             indent level "[" "]" TLBracket TRBracket (x :: l)); [done..| |done].
    rewrite forallb_forall in Hok. rewrite Forall_forall in IH |- *.
    intros y Hy. apply IH; [done|]. by apply Hok, list_elem_of_In.
  - intros ms IH level Hok. simpl in Hok.
    destruct ms as [|x l]; [by apply reads_closed|].
    apply reads_closed.
    apply (run_bracketed
             (fun kv => encode_basestring_ascii kv.1 +:+ ": "
                          +:+ render indent (S level) kv.2)
             (fun kv => TScalar (JStr kv.1) :: TColon :: tokens_of kv.2)
             indent level "{" "}" TLBrace TRBrace (x :: l)); [done..| |done].
    rewrite forallb_forall in Hok. rewrite Forall_forall in IH |- *.
    intros y Hy. rewrite <- str_app_assoc.
    apply (reads_after _ [TScalar (JStr y.1); TColon]).
    + rewrite run_app, run_basestring. reflexivity.
    + apply IH; [done|]. by apply Hok, list_elem_of_In.
Qed.

(** ** The parser on the tokens of a JSON value *)

Lemma parse_items_S fuel ts :
  parse_items (S fuel) ts
  = (p ← parse_value fuel ts;
     match p.2 with
     | TComma :: ts' => q ← parse_items fuel ts'; Some (p.1 :: q.1, q.2)
     | TRBracket :: ts' => Some ([p.1], ts')
     | _ => None
     end).
Proof. reflexivity. Qed.

Lemma parse_members_S fuel k ts :
  parse_members (S fuel) (TScalar (JStr k) :: TColon :: ts)
  = (p ← parse_value fuel ts;
     match p.2 with
     | TComma :: ts' => q ← parse_members fuel ts'; Some ((k, p.1) :: q.1, q.2)
     | TRBrace :: ts' => Some ([(k, p.1)], ts')
     | _ => None
     end).
Proof. reflexivity. Qed.

Lemma tokens_of_head j :
  exists t ts, tokens_of j = t :: ts /\ t <> TRBracket.
Proof. destruct j; simpl; by eexists _, _. Qed.

Lemma parse_items_seq l :
  Forall (fun x => forall fuel rest, length (tokens_of x) <= fuel ->
            parse_value fuel (tokens_of x ++ rest) = Some (x, rest)) l ->
  l <> [] ->
  forall fuel rest,
    length (seq_tokens tokens_of TRBracket l) <= fuel ->
    parse_items fuel (seq_tokens tokens_of TRBracket l ++ rest)
    = Some (l, rest).
Proof.
  induction 1 as [|x l Hx Hl IH]; [done|]. intros _ fuel rest Hfuel.
  destruct fuel as [|fuel];
    [destruct l; simpl in Hfuel; rewrite length_app in Hfuel;
     simpl in Hfuel; lia|].
  rewrite parse_items_S.
  destruct l as [|y l].
  - simpl seq_tokens in *. rewrite length_app in Hfuel. simpl in Hfuel.
    rewrite <- app_assoc, Hx by lia. reflexivity.
  - change (seq_tokens tokens_of TRBracket (x :: y :: l))
      with (tokens_of x ++ TComma :: seq_tokens tokens_of TRBracket (y :: l))
      in *.
    rewrite length_app in Hfuel. cbn [length] in Hfuel.
    rewrite <- app_assoc, Hx by lia. cbn -[seq_tokens parse_items].
    rewrite IH; [done|done|lia].
Qed.

Lemma parse_members_seq l :
  Forall (fun kv => forall fuel rest, length (tokens_of kv.2) <= fuel ->
            parse_value fuel (tokens_of kv.2 ++ rest) = Some (kv.2, rest)) l ->
  l <> [] ->
  forall fuel rest,
    length (seq_tokens (fun kv => TScalar (JStr kv.1) :: TColon
                                    :: tokens_of kv.2) TRBrace l) <= fuel ->
    parse_members fuel
      (seq_tokens (fun kv => TScalar (JStr kv.1) :: TColon :: tokens_of kv.2)
                  TRBrace l ++ rest)
    = Some (l, rest).
Proof.
  induction 1 as [|[k v] l Hx Hl IH]; [done|]. intros _ fuel rest Hfuel.
  set (f := fun kv : string * json =>
              TScalar (JStr kv.1) :: TColon :: tokens_of kv.2) in *.
  simpl in Hx.
  destruct l as [|y l].
  - change (seq_tokens f TRBrace [(k, v)])
      with (TScalar (JStr k) :: TColon :: tokens_of v ++ [TRBrace]) in *.
    cbn [length] in Hfuel. rewrite length_app in Hfuel.
    cbn [length] in Hfuel.
    destruct fuel as [|fuel]; [lia|].
    rewrite <- !app_comm_cons, parse_members_S.
    rewrite <- app_assoc, Hx by lia. reflexivity.
  - change (seq_tokens f TRBrace ((k, v) :: y :: l))
      with (TScalar (JStr k) :: TColon
              :: tokens_of v ++ TComma :: seq_tokens f TRBrace (y :: l)) in *.
    cbn [length] in Hfuel. rewrite length_app in Hfuel.
    cbn [length] in Hfuel.
    destruct fuel as [|fuel]; [lia|].
    rewrite <- !app_comm_cons, parse_members_S.
    rewrite <- app_assoc, Hx by lia. cbn -[seq_tokens parse_members].
    rewrite IH; [done|done|lia].
Qed.

Lemma parse_tokens_of :
  forall j fuel rest, length (tokens_of j) <= fuel ->
    parse_value fuel (tokens_of j ++ rest) = Some (j, rest).
Proof.
  apply (json_ind (fun j => forall fuel rest, length (tokens_of j) <= fuel ->
                     parse_value fuel (tokens_of j ++ rest) = Some (j, rest))).
  1-5: by (intros; destruct fuel; [simpl in *; lia|]).
  - intros items IH fuel rest Hfuel.
    destruct fuel as [|fuel]; [simpl in *; lia|].
    destruct items as [|x l]; [done|].
    simpl in Hfuel. apply le_S_n in Hfuel.
    pose proof (parse_items_seq (x :: l) IH ltac:(done) fuel rest Hfuel) as Hp.
    change (tokens_of (JArr (x :: l)) ++ rest)
      with (TLBracket :: (seq_tokens tokens_of TRBracket (x :: l) ++ rest)).
    destruct (tokens_of_head x) as (t & ts & Hx & Ht).
    assert (exists ts', seq_tokens tokens_of TRBracket (x :: l) ++ rest
                        = t :: ts') as [ts' Hts].
    { destruct l; simpl; rewrite Hx; by eexists. }
    rewrite Hts in Hp |- *.
    assert (parse_value (S fuel) (TLBracket :: t :: ts')
            = (p ← parse_items fuel (t :: ts'); Some (JArr p.1, p.2))) as ->.
    { by destruct t. }
    by rewrite Hp.
  - intros ms IH fuel rest Hfuel.
    destruct fuel as [|fuel]; [simpl in *; lia|].
    destruct ms as [|x l]; [done|].
    simpl in Hfuel. apply le_S_n in Hfuel.
    pose proof (parse_members_seq (x :: l) IH ltac:(done) fuel rest Hfuel)
      as Hp.
    set (f := fun kv : string * json =>
                TScalar (JStr kv.1) :: TColon :: tokens_of kv.2) in *.
    change (tokens_of (JObj (x :: l)) ++ rest)
      with (TLBrace :: (seq_tokens f TRBrace (x :: l) ++ rest)).
    assert (exists ts', seq_tokens f TRBrace (x :: l) ++ rest
                        = TScalar (JStr x.1) :: ts') as [ts' Hts].
    { destruct l; simpl; by eexists. }
    rewrite Hts in Hp |- *.
    change (parse_value (S fuel) (TLBrace :: TScalar (JStr x.1) :: ts'))
      with (p ← parse_members fuel (TScalar (JStr x.1) :: ts');
            Some (JObj p.1, p.2)).
    by rewrite Hp.
Qed.

(** Reading back the text of a JSON value gives the value. *)
Lemma json_loads_render indent level j :
  float_reprs_ok j = true ->
  json_loads (render indent level j) = Some j.
Proof.
  intros Hok. unfold json_loads.
  rewrite (reads_tokenize _ _ (reads_render indent j level Hok)).
  pose proof (parse_tokens_of j (S (length (tokens_of j))) []
                ltac:(lia)) as Hp.
  rewrite app_nil_r in Hp. cbn -[parse_value]. by rewrite Hp.
Qed.

Lemma reads_newline s toks :
  reads s toks -> reads (s +:+ String newline EmptyString) toks.
Proof.
  intros Hs. apply reads_closed.
  rewrite (reads_then_delim _ _ _ _ Hs) by done.
  simpl. by rewrite app_nil_r.
Qed.

(** A newline after the text changes nothing. *)
Lemma json_loads_render_newline indent level j :
  float_reprs_ok j = true ->
  json_loads (render indent level j +:+ String newline EmptyString) = Some j.
Proof.
  intros Hok. unfold json_loads.
  rewrite (reads_tokenize _ _
             (reads_newline _ _ (reads_render indent j level Hok))).
  pose proof (parse_tokens_of j (S (length (tokens_of j))) []
                ltac:(lia)) as Hp.
  rewrite app_nil_r in Hp. cbn -[parse_value]. by rewrite Hp.
Qed.

(** ** Paths *)

Lemma str_app_inv_head (a b c : string) : a +:+ b = a +:+ c -> b = c.
Proof.
  induction a as [|x a IH]; [done|]. rewrite !str_app_cons.
  intros [= H]. by apply IH.
Qed.

Lemma endswith_sep_slash d : endswith_sep (d +:+ "/") = true.
Proof.
  induction d as [|c d IH]; [done|]. rewrite str_app_cons.
  simpl. destruct (d +:+ "/") eqn:Hd; [by destruct d|done].
Qed.

(** Joining the directory and a file name puts the name after a prefix
    that is empty or ends with a slash. *)
Lemma path_join_prefix d :
  exists pre, (is_empty pre || endswith_sep pre) = true /\
    forall name, startswith_sep name = false -> path_join d name = pre +:+ name.
Proof.
  destruct (is_empty d || endswith_sep d) eqn:Hd.
  - exists d. split; [done|]. intros name Hn. unfold path_join.
    by rewrite Hn, Hd.
  - exists (d +:+ "/"). split.
    + by rewrite endswith_sep_slash, orb_true_r.
    + intros name Hn. unfold path_join. rewrite Hn, Hd.
      by rewrite str_app_assoc.
Qed.

Lemma split_last_sep_name name :
  all_chars (fun c => negb (is_sep c)) name = true ->
  split_last_sep name = (EmptyString, name).
Proof.
  induction name as [|c s IH]; [done|]. simpl.
  intros [Hc Hs]%andb_prop. rewrite (IH Hs). simpl.
  apply negb_true_iff in Hc. by rewrite Hc.
Qed.

Lemma split_last_sep_prefix pre name :
  (is_empty pre || endswith_sep pre) = true ->
  all_chars (fun c => negb (is_sep c)) name = true ->
  split_last_sep (pre +:+ name) = (pre, name).
Proof.
  intros Hpre Hname. induction pre as [|c pre IH].
  - by apply split_last_sep_name.
  - rewrite str_app_cons. simpl in Hpre |- *.
    destruct pre as [|c' pre'].
    + rewrite str_app_nil_l, (split_last_sep_name _ Hname). simpl.
      by rewrite Hpre.
    + rewrite IH by done. done.
Qed.

Lemma script_paths data_path :
  exists pre, (is_empty pre || endswith_sep pre) = true
    /\ input_path data_path = pre +:+ "votable_to_json.xml"
    /\ output_path data_path = pre +:+ "votable_to_json.json".
Proof.
  destruct (path_join_prefix data_path) as (pre & Hpre & Hjoin).
  exists pre. unfold input_path, output_path. by rewrite !Hjoin.
Qed.

Lemma input_output_differ data_path :
  input_path data_path <> output_path data_path.
Proof.
  destruct (script_paths data_path) as (pre & _ & -> & ->).
  by intros H%str_app_inv_head.
Qed.

(** C8. The output path is the input path with its extension replaced
    (votable_to_json.xml becomes votable_to_json.json), and both lie in
    the same directory, whatever the directory of the script. *)
Theorem output_path_replaces_extension data_path :
  output_path data_path = replace_extension (input_path data_path) ".json"
  /\ dirname (output_path data_path) = dirname (input_path data_path).
Proof.
  destruct (script_paths data_path) as (pre & Hpre & -> & ->).
  unfold replace_extension, splitext, dirname.
  rewrite !split_last_sep_prefix by done. simpl.
  split; [|done]. by rewrite str_app_assoc.
Qed.

(** ** The two encoders *)

Lemma mapM_result_Ok_impl {A B} (f g : A -> result B) l :
  Forall (fun x => forall y, f x = Ok y -> g x = Ok y) l ->
  forall ys, mapM f l = Ok ys -> mapM g l = Ok ys.
Proof.
  induction 1 as [|x l Hx _ IH]; [done|]. intros ys.
  rewrite !mapM_result_cons.
  destruct (f x) as [y| |] eqn:Hfx; [|done..]. rewrite (Hx y eq_refl).
  simpl. destruct (mapM f l) as [k| |]; [|done..].
  by rewrite (IH k eq_refl).
Qed.

(** What the plain encoder accepts, the encoder with the fallback reads
    the same way. *)
Lemma to_json_without_fallback :
  forall o j, to_json false o = Ok j -> to_json true o = Ok j.
Proof.
  apply (pyvalue_ind
    (fun o => forall j, to_json false o = Ok j -> to_json true o = Ok j)
    (fun a => True)); try done.
  - intros lst IH j. simpl.
    destruct (mapM (to_json false) lst) as [k| |] eqn:Hk; [|done..].
    by rewrite (mapM_result_Ok_impl _ _ _ IH k Hk).
  - intros dct IH j. simpl.
    destruct (mapM _ dct) as [k| |] eqn:Hk; [|done..].
    assert (Forall (fun kv : string * pyvalue => forall y,
              (j' ← to_json false kv.2; Ok (kv.1, j')) = Ok y ->
              (j' ← to_json true kv.2; Ok (kv.1, j')) = Ok y) dct) as Hall.
    { eapply Forall_impl; [exact IH|]. intros kv Hkv y. simpl.
      destruct (to_json false kv.2) as [j'| |] eqn:Hj'; [|done..].
      by rewrite (Hkv j' Hj'). }
    by rewrite (mapM_result_Ok_impl _ _ _ Hall k Hk).
  - by intros [] f j.
Qed.

Lemma json_dumps_plain_Ok indent o text :
  json_dumps PlainEncoder indent o = Ok text ->
  json_dumps MyEncoder indent o = Ok text.
Proof.
  rewrite (json_dumps_to_json false), (json_dumps_to_json true).
  destruct (to_json false o) as [j| |] eqn:Hj; [|done..].
  by rewrite (to_json_without_fallback o j Hj).
Qed.

(** ** Runs of the script *)

Lemma open_w_cases path w :
  open_w path w
  = if can_open_w path w
    then (Ok tt, log (EvOpen path)
                   (World (<[path := File EmptyString
                               (from_option readable true (files w !! path))
                               true]> (files w))
                          (creatable w) (stdout w) (trace w)))
    else (Raise IOError, w).
Proof.
  unfold open_w, can_open_w.
  destruct (files w !! path) as [f|]; simpl.
  - by destruct (writable f).
  - by destruct (creatable w path).
Qed.

(** What [emit] does, by the outcomes of the two serializations and of
    opening the output file. *)
Lemma emit_cases data_path raw w :
  emit data_path raw w
  = match json_dumps MyEncoder 2 raw with
    | Ok pretty =>
        if can_open_w (output_path data_path) w then
          match json_dumps PlainEncoder 2 raw with
          | Ok text =>
              (Ok tt, world_after (output_path data_path) pretty text w)
          | Raise e =>
              (Raise e, world_truncated (output_path data_path) pretty w)
          | OutOfFuel =>
              (OutOfFuel, world_truncated (output_path data_path) pretty w)
          end
        else (Raise IOError,
              World (files w) (creatable w)
                    (stdout w +:+ pretty +:+ String newline EmptyString)
                    (trace w ++ [EvPrint pretty]))
    | Raise e => (Raise e, w)
    | OutOfFuel => (OutOfFuel, w)
    end.
Proof.
  unfold emit.
  destruct (json_dumps MyEncoder 2 raw) as [pretty| |] eqn:Hmy; [|done..].
  unfold mbind, io_bind, lift, print, with_open_w. rewrite open_w_cases.
  unfold can_open_w, file_write, close, log, world_after, world_truncated.
  cbn -[json_dumps].
  destruct (files w !! output_path data_path) as [f|] eqn:Hf;
    cbn -[json_dumps].
  - destruct (writable f); [|done].
    destruct (json_dumps PlainEncoder 2 raw) as [text| |]; cbn.
    + rewrite lookup_insert_eq. cbn. rewrite insert_insert_eq.
      by rewrite <- !app_assoc.
    + by rewrite <- !app_assoc.
    + by rewrite <- !app_assoc.
  - destruct (creatable w (output_path data_path)); [|done].
    destruct (json_dumps PlainEncoder 2 raw) as [text| |]; cbn.
    + rewrite lookup_insert_eq. cbn. rewrite insert_insert_eq.
      by rewrite <- !app_assoc.
    + by rewrite <- !app_assoc.
    + by rewrite <- !app_assoc.
Qed.

Lemma script_cases xml_of_bytes data_path w :
  script xml_of_bytes data_path w
  = match files w !! input_path data_path with
    | Some f =>
        if readable f then
          match xml_of_bytes (contents f) with
          | Some tree => emit data_path (xmltodict_parse tree) w
          | None => (Raise ParseError, w)
          end
        else (Raise ParseError, w)
    | None => (Raise ParseError, w)
    end.
Proof.
  unfold script, etree_parse, mbind at 1, io_bind.
  destruct (files w !! input_path data_path) as [f|]; [|done].
  destruct (readable f); [|done].
  by destruct (xml_of_bytes (contents f)).
Qed.

(** ** xmltodict: dict entries *)

Lemma dict_get_set d k v k' :
  dict_get (dict_set d k v) k'
  = if String.eqb k k' then Some v else dict_get d k'.
Proof.
  induction d as [|[k0 v0] d IH]; simpl.
  - done.
  - destruct (String.eqb_spec k0 k) as [->|Hne]; simpl.
    + by destruct (String.eqb k k').
    + destruct (String.eqb_spec k0 k') as [->|Hne'].
      * destruct (String.eqb_spec k k') as [->|]; done.
      * exact IH.
Qed.

Lemma push_data_get item k v k' :
  dict_get (push_data item k v) k'
  = if String.eqb k k'
    then Some (pushed (dict_get (from_option id [] item) k) v)
    else dict_get (from_option id [] item) k'.
Proof.
  unfold push_data, pushed.
  destruct (dict_get (from_option id [] item) k) as [[]|];
    by rewrite dict_get_set.
Qed.

Lemma dict_set_nonempty d k v : dict_set d k v <> [].
Proof. destruct d as [|[k0 v0] d]; simpl; [done|]. by destruct (k0 =? k)%string. Qed.

(** ** xmltodict: the value of an element *)

Lemma element_value_unfold tag attrib text children :
  element_value (Element tag attrib text children)
  = end_value (fold_left push_child (map fst children) (start_item attrib))
              (cdata (text :: map snd children)).
Proof.
  simpl. f_equal. generalize (start_item attrib).
  induction children as [|[c tl] l IH]; intros item; [done|].
  simpl. apply IH.
Qed.

Lemma element_value_not_list e : is_list (element_value e) = false.
Proof.
  destruct e as [tag attrib text children].
  rewrite element_value_unfold. unfold end_value.
  by destruct (fold_left _ _ _), (cdata _).
Qed.

(** The entry of a key after the walk: the values of the children with
    that tag, pushed in document order. *)
Lemma walk_get t children item :
  dict_get (from_option id [] (fold_left push_child children item)) t
  = fold_left (fun cur v => Some (pushed cur v))
      (map element_value
           (filter (fun c => String.eqb (tag_of c) t = true) children))
      (dict_get (from_option id [] item) t).
Proof.
  revert item. induction children as [|c l IH]; intros item; [done|].
  simpl fold_left at 1. rewrite IH.
  change (from_option id [] (push_child item c))
    with (push_data item (tag_of c) (element_value c)).
  rewrite push_data_get.
  rewrite filter_cons. destruct (decide _) as [Ht|Ht].
  - rewrite Ht. apply String.eqb_eq in Ht. by rewrite Ht.
  - apply not_true_is_false in Ht. by rewrite Ht.
Qed.

Lemma pushed_values_list l vs :
  fold_left (fun cur v => Some (pushed cur v)) vs (Some (PList l))
  = Some (PList (l ++ vs)).
Proof.
  revert l. induction vs as [|v vs IH]; intros l; simpl.
  - by rewrite app_nil_r.
  - by rewrite IH, <- app_assoc.
Qed.

(** One value stays as it is; two or more become the list of them. *)
Lemma pushed_values vs :
  Forall (fun v => is_list v = false) vs ->
  fold_left (fun cur v => Some (pushed cur v)) vs None
  = match vs with
    | [] => None
    | [v] => Some v
    | _ => Some (PList vs)
    end.
Proof.
  destruct 1 as [|v1 vs Hv1 Hvs]; [done|]. simpl.
  destruct Hvs as [|v2 vs Hv2 Hvs]; [done|]. simpl.
  destruct v1; try done; by rewrite pushed_values_list.
Qed.

Lemma walk_nonempty children item :
  children <> [] -> exists it, fold_left push_child children item = Some it.
Proof.
  revert item. induction children as [|c l IH]; intros item; [done|].
  intros _. simpl. destruct l as [|c' l]; [by eexists|]. by apply IH.
Qed.

Lemma start_item_dict attrib :
  from_option id [] (start_item attrib) = attrs_dict attrib [].
Proof.
  unfold start_item, attrs_dict.
  by destruct (fold_left _ attrib []).
Qed.

Lemma at_key_not_name a t : xml_name t = true -> String.eqb ("@" +:+ a) t = false.
Proof.
  destruct t as [|c t]; [done|]. intros Hc. simpl in Hc.
  change (("@" +:+ a =? String c t)%string)
    with (Ascii.eqb "@" c && (a =? t)%string).
  destruct (Ascii.eqb_spec "@" c) as [<-|]; done.
Qed.

Lemma at_key_eqb a b : String.eqb ("@" +:+ a) ("@" +:+ b) = String.eqb a b.
Proof. reflexivity. Qed.

Lemma attrs_dict_get_name attrib d t :
  xml_name t = true -> dict_get (attrs_dict attrib d) t = dict_get d t.
Proof.
  intros Ht. revert d. induction attrib as [|[a v] l IH]; intros d; [done|].
  unfold attrs_dict in *. simpl. rewrite IH, dict_get_set.
  by rewrite at_key_not_name.
Qed.

Lemma attrs_dict_get_other attrib d a :
  a ∉ map fst attrib ->
  dict_get (attrs_dict attrib d) ("@" +:+ a) = dict_get d ("@" +:+ a).
Proof.
  revert d. induction attrib as [|[a' v] l IH]; intros d Ha; [done|].
  unfold attrs_dict in *. simpl in *. apply not_elem_of_cons in Ha as [Hne Ha].
  rewrite IH, dict_get_set, at_key_eqb by done.
  by destruct (String.eqb_spec a' a) as [->|].
Qed.

Lemma attrs_dict_get_attr attrib d a v :
  NoDup (map fst attrib) -> (a, v) ∈ attrib ->
  dict_get (attrs_dict attrib d) ("@" +:+ a) = Some (PStr v).
Proof.
  revert d. induction attrib as [|[a' v'] l IH]; intros d Hnd Hin.
  - by apply elem_of_nil in Hin.
  - simpl in Hnd. apply NoDup_cons in Hnd as [Hnotin Hnd].
    apply elem_of_cons in Hin as [[= <- <-]|Hin].
    + change (attrs_dict ((a, v) :: l) d)
        with (attrs_dict l (dict_set d ("@" +:+ a) (PStr v))).
      rewrite attrs_dict_get_other, dict_get_set by done.
      by rewrite String.eqb_refl.
    + change (attrs_dict ((a', v') :: l) d)
        with (attrs_dict l (dict_set d ("@" +:+ a') (PStr v'))).
      by apply IH.
Qed.

(** The text of the element, pushed last, leaves the other keys alone. *)
Lemma element_value_get tag attrib text children it k :
  fold_left push_child (map fst children) (start_item attrib) = Some it ->
  String.eqb "#text" k = false ->
  exists dct, element_value (Element tag attrib text children) = PDict dct
              /\ dict_get dct k = dict_get it k.
Proof.
  intros Hit Hk. rewrite element_value_unfold, Hit. unfold end_value.
  destruct (cdata _) as [s|]; [|by eexists].
  eexists. split; [done|]. by rewrite push_data_get, Hk.
Qed.

Lemma children_names_filter a children :
  forallb (fun c => xml_name (tag_of c)) children = true ->
  filter (fun c => String.eqb (tag_of c) ("@" +:+ a) = true) children = [].
Proof.
  induction children as [|c l IH]; [done|]. simpl.
  intros [Hc Hl]%andb_prop. rewrite filter_cons, (IH Hl).
  destruct (decide _) as [Heq|]; [|done].
  apply String.eqb_eq in Heq. rewrite Heq in Hc. done.
Qed.

Lemma well_formed_children tag attrib text children :
  well_formed (Element tag attrib text children) = true ->
  forallb (fun c => xml_name (tag_of c)) (map fst children) = true.
Proof.
  simpl. intros [_ H]%andb_prop. rewrite forallb_forall in H |- *.
  intros c Hc. apply in_map_iff in Hc as ([c' tl] & <- & Hin).
  specialize (H _ Hin). simpl in *. destruct c'. simpl in *.
  by repeat (apply andb_prop in H as [H _]).
Qed.

Lemma well_formed_attrib tag attrib text children :
  well_formed (Element tag attrib text children) = true ->
  NoDup (map fst attrib).
Proof.
  simpl. intros [[_ H]%andb_prop _]%andb_prop.
  by apply bool_decide_eq_true in H.
Qed.

(** ** xmltodict gives strings, None, dicts and lists only *)

Lemma dict_set_text_only d k v :
  forallb (fun kv => text_only kv.2) d = true -> text_only v = true ->
  forallb (fun kv => text_only kv.2) (dict_set d k v) = true.
Proof.
  intros Hd Hv. induction d as [|[k0 v0] d IH]; simpl in *.
  - by rewrite Hv.
  - apply andb_prop in Hd as [Hv0 Hd].
    destruct (String.eqb k0 k); simpl; [by rewrite Hv, Hd|].
    by rewrite Hv0, IH.
Qed.

Lemma dict_get_text_only d k v :
  forallb (fun kv => text_only kv.2) d = true ->
  dict_get d k = Some v -> text_only v = true.
Proof.
  induction d as [|[k0 v0] d IH]; simpl; [done|].
  intros [Hv0 Hd]%andb_prop. destruct (String.eqb k0 k).
  - by intros [= <-].
  - by apply IH.
Qed.

Lemma push_data_text_only item k v :
  forallb (fun kv => text_only kv.2) (from_option id [] item) = true ->
  text_only v = true ->
  forallb (fun kv => text_only kv.2) (push_data item k v) = true.
Proof.
  intros Hitem Hv. unfold push_data.
  destruct (dict_get (from_option id [] item) k) as [x|] eqn:Hget.
  - pose proof (dict_get_text_only _ _ _ Hitem Hget) as Hx.
    destruct x; try done; apply dict_set_text_only; try done; simpl.
    + by rewrite Hv.
    + by rewrite Hv.
    + simpl in Hx. by rewrite forallb_app, Hx; simpl; rewrite Hv.
    + simpl in Hx. by rewrite Hx, Hv.
  - by apply dict_set_text_only.
Qed.

Lemma attrs_dict_text_only attrib d :
  forallb (fun kv => text_only kv.2) d = true ->
  forallb (fun kv => text_only kv.2) (attrs_dict attrib d) = true.
Proof.
  revert d. induction attrib as [|[a v] l IH]; intros d Hd; [done|].
  apply IH. by apply dict_set_text_only.
Qed.

Lemma walk_text_only children item :
  Forall (fun c => text_only (element_value c) = true) children ->
  forallb (fun kv => text_only kv.2) (from_option id [] item) = true ->
  forallb (fun kv => text_only kv.2)
          (from_option id [] (fold_left push_child children item)) = true.
Proof.
  intros Hch. revert item.
  induction Hch as [|c l Hc _ IH]; intros item Hitem; [done|].
  simpl. apply IH. by apply push_data_text_only.
Qed.

Lemma element_value_text_only e : text_only (element_value e) = true.
Proof.
  induction e as [tag attrib text children IH] using element_ind.
  rewrite element_value_unfold.
  assert (forallb (fun kv => text_only kv.2)
            (from_option id []
               (fold_left push_child (map fst children) (start_item attrib)))
          = true) as Hitem.
  { apply walk_text_only.
    - by apply Forall_map.
    - rewrite start_item_dict. by apply attrs_dict_text_only. }
  unfold end_value.
  destruct (fold_left _ _ _) as [it|]; destruct (cdata _) as [s|];
    try done; simpl in *.
  by apply (push_data_text_only (Some it)).
Qed.

Lemma xmltodict_parse_text_only root :
  text_only (xmltodict_parse root) = true.
Proof.
  unfold xmltodict_parse. simpl.
  by rewrite element_value_text_only.
Qed.

Lemma mapM_result_Ok_exists {A B} (f : A -> result B) (Q : B -> Prop) l :
  Forall (fun x => exists y, f x = Ok y /\ Q y) l ->
  exists ys, mapM f l = Ok ys /\ Forall Q ys.
Proof.
  induction 1 as [|x l (y & Hy & Hq) _ (ys & Hys & Hqs)].
  - by exists [].
  - exists (y :: ys). rewrite mapM_result_cons, Hy, Hys.
    split; [done|by constructor].
Qed.

(** Such values are accepted by either encoder. *)
Lemma text_only_to_json fallback :
  forall o, text_only o = true ->
    exists j, to_json fallback o = Ok j /\ float_reprs_ok j = true.
Proof.
  apply (pyvalue_ind
    (fun o => text_only o = true ->
       exists j, to_json fallback o = Ok j /\ float_reprs_ok j = true)
    (fun a => True)); try done.
  - by exists JNull.
  - intros s _. by exists (JStr s).
  - intros lst IH Hl. simpl in Hl. rewrite forallb_forall in Hl.
    destruct (mapM_result_Ok_exists (to_json fallback)
                (fun j => float_reprs_ok j = true) lst) as (js & Hjs & Hok).
    { rewrite Forall_forall in IH |- *. intros x Hx.
      by apply IH, Hl, list_elem_of_In. }
    exists (JArr js). simpl. rewrite Hjs. split; [done|].
    apply forallb_forall. intros j Hj.
    rewrite Forall_forall in Hok. by apply Hok, list_elem_of_In.
  - intros dct IH Hl. simpl in Hl. rewrite forallb_forall in Hl.
    destruct (mapM_result_Ok_exists
                (fun kv => j ← to_json fallback kv.2; Ok (kv.1, j))
                (fun kj => float_reprs_ok kj.2 = true) dct)
      as (js & Hjs & Hok).
    { rewrite Forall_forall in IH |- *. intros x Hx.
      destruct (IH x Hx) as (j & Hj & Hjok); [by apply Hl, list_elem_of_In|].
      exists (x.1, j). by rewrite Hj. }
    exists (JObj js). simpl. rewrite Hjs. split; [done|].
    apply forallb_forall. intros j Hj.
    rewrite Forall_forall in Hok. by apply Hok, list_elem_of_In.
Qed.

(** ** Serialization with the numeric fallback *)

Lemma json_dumps_outcome fallback indent o :
  match json_dumps (encoder_of fallback) indent o with
  | Ok text =>
      Forall (fun x => accepts fallback x = true) (values_of o)
      /\ exists j, to_json fallback o = Ok j /\ text = render indent 0 j
  | Raise e =>
      exists x, x ∈ values_of o /\ accepts fallback x = false
                /\ e = SerializationError (class_of x)
  | OutOfFuel => False
  end.
Proof.
  rewrite json_dumps_to_json.
  pose proof (to_json_cases fallback o) as H. unfold to_json_outcome in H.
  destruct (to_json fallback o) as [j| |]; simpl; [|done..].
  split; [done|]. by exists j.
Qed.

(** C7. Serialization with the fallback fails with a SerializationError
    as soon as some value of the structure (a dict value, a list item,
    an array item, at any depth) has a type other than string, number,
    boolean, null, mapping, sequence, numpy integer, numpy floating or
    numpy ndarray; when every value has one of those types it does not
    fail. *)
Theorem serialize_fails_iff_unsupported indent o :
  ((exists x, x ∈ values_of o /\ supported_type x = false) ->
   exists c, json_dumps MyEncoder indent o = Raise (SerializationError c))
  /\ ((forall x, x ∈ values_of o -> supported_type x = true) ->
      exists text, json_dumps MyEncoder indent o = Ok text).
Proof.
  pose proof (json_dumps_outcome true indent o) as H.
  change (encoder_of true) with MyEncoder in H.
  destruct (json_dumps MyEncoder indent o) as [text|e|]; [|..|done].
  - destruct H as [Hall _]. split; [|by exists text].
    intros (x & Hx & Hbad). rewrite Forall_forall in Hall.
    specialize (Hall x Hx). simpl in Hall. congruence.
  - destruct H as (x & Hx & Hbad & ->). split; [by eexists|].
    intros Hall. specialize (Hall x Hx). simpl in Hbad. congruence.
Qed.

Lemma serialize_fails_iff_unsupported_witness :
  (exists c, json_dumps MyEncoder 2
               (PDict [("a", arr123); ("b", PList [PObject "complex"])])
             = Raise (SerializationError c))
  /\ (exists text, json_dumps MyEncoder 2 (PDict [("a", arr123)]) = Ok text).
Proof.
  split.
  - apply (proj1 (serialize_fails_iff_unsupported 2 _)).
    exists (PObject "complex"). split; [|reflexivity].
    apply list_elem_of_In. simpl. tauto.
  - apply (proj2 (serialize_fails_iff_unsupported 2 _)).
    intros x Hx. simpl in Hx.
    repeat (apply elem_of_cons in Hx as [->|Hx]; [reflexivity|]).
    by apply elem_of_nil in Hx.
Defined.




(** ** Runs on an XML document *)

(** The structure xmltodict makes of a document is serialized by both
    encoders, to the same text. *)
Lemma xmltodict_parse_dumps tree :
  exists j, to_json false (xmltodict_parse tree) = Ok j
    /\ float_reprs_ok j = true
    /\ json_dumps MyEncoder 2 (xmltodict_parse tree) = Ok (render 2 0 j)
    /\ json_dumps PlainEncoder 2 (xmltodict_parse tree) = Ok (render 2 0 j).
Proof.
  destruct (text_only_to_json false _ (xmltodict_parse_text_only tree))
    as (j & Hj & Hok).
  exists j. split; [done|]. split; [done|].
  assert (json_dumps PlainEncoder 2 (xmltodict_parse tree)
          = Ok (render 2 0 j)) as Hplain.
  { by rewrite (json_dumps_to_json false), Hj. }
  split; [by apply json_dumps_plain_Ok|done].
Qed.

(** What the script does, by the state of the input file and of the
    output path. *)
Lemma script_outcome xml_of_bytes data_path w :
  script xml_of_bytes data_path w
  = match files w !! input_path data_path with
    | Some f =>
        if readable f then
          match xml_of_bytes (contents f) with
          | Some tree =>
              let text :=
                from_result EmptyString (json_dumps MyEncoder 2 (xmltodict_parse tree))
              in
              if can_open_w (output_path data_path) w
              then (Ok tt, world_after (output_path data_path) text text w)
              else (Raise IOError,
                    World (files w) (creatable w)
                          (stdout w +:+ text +:+ String newline EmptyString)
                          (trace w ++ [EvPrint text]))
          | None => (Raise ParseError, w)
          end
        else (Raise ParseError, w)
    | None => (Raise ParseError, w)
    end.
Proof.
  rewrite script_cases.
  destruct (files w !! input_path data_path) as [f|]; [|done].
  destruct (readable f); [|done].
  destruct (xml_of_bytes (contents f)) as [tree|]; [|done].
  rewrite emit_cases.
  destruct (xmltodict_parse_dumps tree) as (j & _ & _ & -> & ->).
  reflexivity.
Qed.

Lemma script_success xml_of_bytes data_path w w' :
  script xml_of_bytes data_path w = (Ok tt, w') ->
  exists f tree j,
    files w !! input_path data_path = Some f /\ readable f = true
    /\ xml_of_bytes (contents f) = Some tree
    /\ to_json true (xmltodict_parse tree) = Ok j
    /\ float_reprs_ok j = true
    /\ can_open_w (output_path data_path) w = true
    /\ w' = world_after (output_path data_path)
                        (render 2 0 j) (render 2 0 j) w.
Proof.
  rewrite script_outcome.
  destruct (files w !! input_path data_path) as [f|] eqn:Hf; [|done].
  destruct (readable f) eqn:Hr; [|done].
  destruct (xml_of_bytes (contents f)) as [tree|] eqn:Ht; [|done].
  destruct (xmltodict_parse_dumps tree) as (j & Hj & Hok & -> & _).
  simpl. destruct (can_open_w _ w) eqn:Ho; [|done].
  intros [= <-]. exists f, tree, j.
  by pose proof (to_json_without_fallback _ _ Hj).
Qed.

(** C6. If the input file is missing, unreadable or not well-formed XML,
    the run ends with a ParseError, the exit status is not zero, and
    the world is left as it was: the output file is neither created nor
    changed, and nothing was opened. *)
Theorem parse_failure_is_fatal xml_of_bytes data_path w :
  (files w !! input_path data_path = None
   \/ exists f, files w !! input_path data_path = Some f
        /\ (readable f = false \/ xml_of_bytes (contents f) = None)) ->
  script xml_of_bytes data_path w = (Raise ParseError, w)
  /\ exit_code (script xml_of_bytes data_path w).1 <> 0%Z
  /\ files (script xml_of_bytes data_path w).2 !! output_path data_path
     = files w !! output_path data_path
  /\ trace (script xml_of_bytes data_path w).2 = trace w.
Proof.
  intros H.
  assert (script xml_of_bytes data_path w = (Raise ParseError, w)) as ->.
  { rewrite script_cases.
    destruct H as [->|(f & -> & [->| Hx])]; [done..|].
    destruct (readable f); [|done]. by rewrite Hx. }
  done.
Qed.

Lemma parse_failure_is_fatal_witness :
  script sample_parser "/d" empty_world = (Raise ParseError, empty_world)
  /\ exit_code (script sample_parser "/d" empty_world).1 <> 0%Z
  /\ files (script sample_parser "/d" empty_world).2 !! output_path "/d"
     = files empty_world !! output_path "/d"
  /\ trace (script sample_parser "/d" empty_world).2 = trace empty_world.
Proof.
  apply (parse_failure_is_fatal sample_parser "/d" empty_world).
  left. reflexivity.
Defined.



(** C2. In a run that succeeds, the text printed to standard output is
    the text written to the output file followed by a newline, and both
    read back as the same JSON value. *)
Theorem console_file_agreement xml_of_bytes data_path w w' :
  script xml_of_bytes data_path w = (Ok tt, w') ->
  exists printed written j,
    stdout w' = stdout w +:+ printed
    /\ contents <$> (files w' !! output_path data_path) = Some written
    /\ printed = written +:+ String newline EmptyString
    /\ json_loads printed = Some j
    /\ json_loads written = Some j.
Proof.
  intros (f & tree & j & _ & _ & _ & _ & Hok & _ & ->)%script_success.
  exists (render 2 0 j +:+ String newline EmptyString), (render 2 0 j), j.
  unfold world_after. simpl. rewrite lookup_insert_eq.
  split; [done|]. split; [done|]. split; [done|].
  split; [by apply json_loads_render_newline|by apply json_loads_render].
Qed.

Lemma console_file_agreement_witness :
  exists printed written j,
    stdout (script sample_parser "/d" sample_world).2
    = stdout sample_world +:+ printed
    /\ contents <$> (files (script sample_parser "/d" sample_world).2
                      !! output_path "/d") = Some written
    /\ printed = written +:+ String newline EmptyString
    /\ json_loads printed = Some j
    /\ json_loads written = Some j.
Proof.
  apply (console_file_agreement sample_parser "/d" sample_world).
  vm_compute. reflexivity.
Defined.

(** C5. After a run that succeeds, a second run on the world it left
    (the input file is untouched) succeeds too and leaves the same bytes
    in the output file; more generally every successful run on the same
    input file writes the same bytes. *)
Theorem conversion_is_deterministic xml_of_bytes data_path w w1 :
  script xml_of_bytes data_path w = (Ok tt, w1) ->
  files w1 !! input_path data_path = files w !! input_path data_path
  /\ (exists w2, script xml_of_bytes data_path w1 = (Ok tt, w2)
        /\ contents <$> (files w2 !! output_path data_path)
           = contents <$> (files w1 !! output_path data_path))
  /\ (forall wb wb',
        files wb !! input_path data_path = files w !! input_path data_path ->
        script xml_of_bytes data_path wb = (Ok tt, wb') ->
        contents <$> (files wb' !! output_path data_path)
        = contents <$> (files w1 !! output_path data_path)).
Proof.
  intros (f & tree & j & Hf & Hr & Ht & Hj & _ & _ & ->)%script_success.
  assert (forall wb wb',
            files wb !! input_path data_path = files w !! input_path data_path ->
            script xml_of_bytes data_path wb = (Ok tt, wb') ->
            contents <$> (files wb' !! output_path data_path)
            = Some (render 2 0 j)) as Hsame.
  { intros wb wb' Hin
      (f' & tree' & j' & Hf' & _ & Ht' & Hj' & _ & _ & ->)%script_success.
    rewrite Hin, Hf in Hf'. injection Hf' as <-.
    rewrite Ht in Ht'. injection Ht' as <-.
    rewrite Hj in Hj'. injection Hj' as <-.
    unfold world_after. simpl. by rewrite lookup_insert_eq. }
  assert (files (world_after (output_path data_path) (render 2 0 j)
                   (render 2 0 j) w) !! input_path data_path
          = files w !! input_path data_path) as Hin.
  { unfold world_after. simpl. apply lookup_insert_ne.
    intros H. by apply (input_output_differ data_path). }
  assert (contents <$> (files (world_after (output_path data_path)
                                 (render 2 0 j) (render 2 0 j) w)
                        !! output_path data_path)
          = Some (render 2 0 j)) as Hout.
  { unfold world_after. simpl. by rewrite lookup_insert_eq. }
  split; [done|]. split.
  - set (w1 := world_after _ _ _ w) in *.
    assert (exists w2, script xml_of_bytes data_path w1 = (Ok tt, w2))
      as [w2 Hw2].
    { rewrite script_outcome, Hin, Hf, Hr, Ht.
      assert (can_open_w (output_path data_path) w1 = true) as ->; [|by eexists].
      unfold can_open_w, w1, world_after. simpl.
      by rewrite lookup_insert_eq. }
    exists w2. split; [done|]. rewrite Hout. by apply (Hsame w1 w2).
  - intros wb wb' Hb Hrun. rewrite Hout. by apply (Hsame wb wb').
Qed.

Lemma conversion_is_deterministic_witness :
  files (script sample_parser "/d" sample_world).2 !! input_path "/d"
  = files sample_world !! input_path "/d"
  /\ (exists w2,
        script sample_parser "/d" (script sample_parser "/d" sample_world).2
        = (Ok tt, w2)
        /\ contents <$> (files w2 !! output_path "/d")
           = contents <$> (files (script sample_parser "/d" sample_world).2
                            !! output_path "/d"))
  /\ (forall wb wb',
        files wb !! input_path "/d" = files sample_world !! input_path "/d" ->
        script sample_parser "/d" wb = (Ok tt, wb') ->
        contents <$> (files wb' !! output_path "/d")
        = contents <$> (files (script sample_parser "/d" sample_world).2
                         !! output_path "/d")).
Proof.
  apply (conversion_is_deterministic sample_parser "/d" sample_world).
  vm_compute. reflexivity.
Defined.

(** ** Numpy values and the file write *)

(** C10, counterexample.  A numpy.float64 is a builtin float: the plain
    encoder of the file write serializes a structure that contains one,
    and the run of [emit] ends without error. *)
Lemma float64_written_without_fallback :
  NpFloating Float64 (FFinite "1.5")
    ∈ values_of (PDict [("x", NpFloating Float64 (FFinite "1.5"))])
  /\ json_dumps PlainEncoder 2 (PDict [("x", NpFloating Float64 (FFinite "1.5"))])
     = json_dumps MyEncoder 2 (PDict [("x", NpFloating Float64 (FFinite "1.5"))])
  /\ (emit "/d" (PDict [("x", NpFloating Float64 (FFinite "1.5"))])
            empty_world).1 = Ok tt
  /\ ~ (exists e,
          json_dumps PlainEncoder 2
            (PDict [("x", NpFloating Float64 (FFinite "1.5"))]) = Raise e).
Proof.
  split; [apply list_elem_of_In; simpl; tauto|].
  split; [reflexivity|]. split; [reflexivity|].
  intros [e H]. vm_compute in H. discriminate.
Qed.

(** C10, as amended.  The file write does not use the fallback encoder.
    For every structure whose values have supported types and one of
    which is a numpy integer, a numpy floating other than a float64, or
    an ndarray, and when the output file can be opened for writing: the
    console print succeeds, then json.dumps for the file raises a
    SerializationError, after the output file was opened, which leaves
    it empty. *)
Theorem file_write_without_fallback data_path raw w :
  all_supported raw ->
  (exists x, x ∈ values_of raw /\ builtin_type x = false) ->
  can_open_w (output_path data_path) w = true ->
  exists pretty c,
    json_dumps MyEncoder 2 raw = Ok pretty
    /\ json_dumps PlainEncoder 2 raw = Raise (SerializationError c)
    /\ emit data_path raw w
       = (Raise (SerializationError c),
          world_truncated (output_path data_path) pretty w)
    /\ stdout (emit data_path raw w).2
       = stdout w +:+ pretty +:+ String newline EmptyString
    /\ trace (emit data_path raw w).2
       = trace w ++ [EvPrint pretty; EvOpen (output_path data_path);
                     EvClose (output_path data_path)]
    /\ contents <$> (files (emit data_path raw w).2 !! output_path data_path)
       = Some EmptyString.
Proof.
  intros Hall (x & Hx & Hbad) Hopen.
  unfold all_supported in Hall. rewrite Forall_forall in Hall.
  pose proof (json_dumps_outcome true 2 raw) as Hmy.
  change (encoder_of true) with MyEncoder in Hmy.
  destruct (json_dumps MyEncoder 2 raw) as [pretty|e|] eqn:Hm; [|..|done].
  2: { destruct Hmy as (y & Hy & Hbady & _). specialize (Hall y Hy).
       simpl in Hbady. congruence. }
  clear Hmy. rename Hm into Hmy.
  pose proof (json_dumps_outcome false 2 raw) as Hplain.
  change (encoder_of false) with PlainEncoder in Hplain.
  destruct (json_dumps PlainEncoder 2 raw) as [text|e|] eqn:Hp; [|..|done].
  { destruct Hplain as [Hb _]. rewrite Forall_forall in Hb.
    specialize (Hb x Hx). simpl in Hb. congruence. }
  destruct Hplain as (y & Hy & _ & ->).
  exists pretty, (class_of y). split; [done|]. split; [done|].
  rewrite emit_cases, Hmy, Hopen, Hp. unfold world_truncated. simpl.
  by rewrite lookup_insert_eq.
Qed.

Lemma file_write_without_fallback_witness :
  exists pretty c,
    json_dumps MyEncoder 2 arr123 = Ok pretty
    /\ json_dumps PlainEncoder 2 arr123 = Raise (SerializationError c)
    /\ emit "/d" arr123 empty_world
       = (Raise (SerializationError c),
          world_truncated (output_path "/d") pretty empty_world)
    /\ stdout (emit "/d" arr123 empty_world).2
       = stdout empty_world +:+ pretty +:+ String newline EmptyString
    /\ trace (emit "/d" arr123 empty_world).2
       = trace empty_world ++ [EvPrint pretty; EvOpen (output_path "/d");
                               EvClose (output_path "/d")]
    /\ contents <$> (files (emit "/d" arr123 empty_world).2
                      !! output_path "/d") = Some EmptyString.
Proof.
  apply (file_write_without_fallback "/d" arr123 empty_world).
  - unfold all_supported. simpl. by repeat constructor.
  - exists arr123. split; [apply list_elem_of_In; simpl; tauto|reflexivity].
  - reflexivity.
Defined.

(** ** xmltodict: repeated siblings and attributes *)

(** The entry of a tag in the value of an element with at least one
    child of that tag: the value of the child when there is one, the
    list of the values, in document order, when there are several. *)
Lemma element_value_children e t :
  well_formed e = true -> children_tagged t e <> [] ->
  exists dct,
    element_value e = PDict dct
    /\ dict_get dct t
       = match map element_value (children_tagged t e) with
         | [v] => Some v
         | vs => Some (PList vs)
         end
    /\ forall a v, (a, v) ∈ attrib_of e ->
         dict_get dct ("@" +:+ a) = Some (PStr v).
Proof.
  destruct e as [tag attrib text children]. intros Hwf Hne.
  unfold children_tagged, children_of in *. simpl attrib_of.
  pose proof (well_formed_children _ _ _ _ Hwf) as Hnames.
  pose proof (well_formed_attrib _ _ _ _ Hwf) as Hnodup.
  assert (map fst children <> []) as Hch.
  { intros Hnil. by rewrite Hnil in Hne. }
  destruct (walk_nonempty _ (start_item attrib) Hch) as [it Hit].
  assert (xml_name t = true) as Ht.
  { destruct (filter _ (map fst children)) as [|c l] eqn:Hf; [done|].
    assert (c ∈ filter (fun c => String.eqb (tag_of c) t = true)
                       (map fst children)) as Hc by (rewrite Hf; left).
    apply list_elem_of_filter in Hc as [Hct Hc].
    apply String.eqb_eq in Hct as <-.
    rewrite forallb_forall in Hnames. by apply Hnames, list_elem_of_In. }
  assert (String.eqb "#text" t = false) as Htext.
  { destruct t as [|c t]; [done|]. simpl in Ht.
    change (("#text" =? String c t)%string)
      with (Ascii.eqb "#" c && ("text" =? t)%string).
    by destruct (Ascii.eqb_spec "#" c) as [<-|]. }
  destruct (element_value_get tag attrib text children it t Hit Htext)
    as (dct & Hdct & Hget).
  exists dct. split; [done|]. split.
  - rewrite Hget.
    pose proof (walk_get t (map fst children) (start_item attrib)) as Hw.
    rewrite Hit, start_item_dict, attrs_dict_get_name in Hw by done.
    simpl in Hw. rewrite Hw, pushed_values.
    + destruct (filter _ (map fst children)) as [|c [|c' l]]; done.
    + apply Forall_map, Forall_forall. intros c _.
      apply element_value_not_list.
  - intros a v Hav.
    destruct (element_value_get tag attrib text children it ("@" +:+ a) Hit
                eq_refl) as (dct' & Hdct' & Hget').
    rewrite Hdct in Hdct'. injection Hdct' as <-. rewrite Hget'.
    pose proof (walk_get ("@" +:+ a) (map fst children) (start_item attrib))
      as Hw.
    rewrite Hit, start_item_dict, children_names_filter in Hw by done.
    simpl in Hw. rewrite Hw. by apply attrs_dict_get_attr.
Qed.

(** C3, counterexample.  An element with a single child of some tag:
    the entry of that tag is the value of the child, not a sequence of
    length 1. *)
Lemma single_child_not_sequence :
  well_formed (Element "a" [] EmptyString [(Element "b" [] "x" [], EmptyString)]) = true
  /\ length (children_tagged "b"
               (Element "a" [] EmptyString [(Element "b" [] "x" [], EmptyString)])) = 1
  /\ element_value (Element "a" [] EmptyString [(Element "b" [] "x" [], EmptyString)])
     = PDict [("b", PStr "x")]
  /\ ~ (exists items dct,
          element_value (Element "a" [] EmptyString [(Element "b" [] "x" [], EmptyString)])
          = PDict dct
          /\ dict_get dct "b" = Some (PList items)).
Proof.
  split; [reflexivity|]. split; [reflexivity|]. split; [reflexivity|].
  intros (items & dct & Hd & Hget). vm_compute in Hd. injection Hd as <-.
  vm_compute in Hget. discriminate.
Qed.

(** C3, as amended.  For every well-formed element with N >= 2 children
    of the same tag, the mapping of the element holds under that tag the
    sequence of the values of those children, of length N and in their
    order in the document. *)
Theorem repeated_siblings_sequence e t :
  well_formed e = true ->
  2 <= length (children_tagged t e) ->
  exists dct,
    element_value e = PDict dct
    /\ dict_get dct t = Some (PList (map element_value (children_tagged t e)))
    /\ length (map element_value (children_tagged t e))
       = length (children_tagged t e).
Proof.
  intros Hwf Hlen.
  destruct (element_value_children e t Hwf) as (dct & Hdct & Hget & _).
  { intros Hnil. rewrite Hnil in Hlen. simpl in Hlen. lia. }
  exists dct. split; [done|]. split; [|by rewrite length_map].
  rewrite Hget.
  destruct (children_tagged t e) as [|c [|c' l]]; simpl in *; [lia..|done].
Qed.

Lemma repeated_siblings_sequence_witness :
  exists dct,
    element_value sample_tree = PDict dct
    /\ dict_get dct "c"
       = Some (PList (map element_value (children_tagged "c" sample_tree)))
    /\ length (map element_value (children_tagged "c" sample_tree))
       = length (children_tagged "c" sample_tree).
Proof.
  apply (repeated_siblings_sequence sample_tree "c").
  - reflexivity.
  - vm_compute. lia.
Defined.

(** C4. For every well-formed element with an attribute and a child
    element of the same name, the mapping holds the attribute value, a
    string, under the name prefixed by @, and the child (or the list of
    the children of that name) under the bare name; the two keys
    differ. *)
Theorem attribute_and_child_keys e a v :
  well_formed e = true ->
  (a, v) ∈ attrib_of e ->
  children_tagged a e <> [] ->
  exists dct,
    element_value e = PDict dct
    /\ dict_get dct ("@" +:+ a) = Some (PStr v)
    /\ dict_get dct a
       = match map element_value (children_tagged a e) with
         | [x] => Some x
         | xs => Some (PList xs)
         end
    /\ "@" +:+ a <> a.
Proof.
  intros Hwf Hattr Hch.
  destruct (element_value_children e a Hwf Hch) as (dct & Hdct & Hget & Hat).
  exists dct. split; [done|]. split; [by apply Hat|]. split; [done|].
  change ("@" +:+ a) with (String "@" a).
  intros Heq. apply (f_equal String.length) in Heq. simpl in Heq. lia.
Qed.

Lemma attribute_and_child_keys_witness :
  exists dct,
    element_value sample_tree = PDict dct
    /\ dict_get dct ("@" +:+ "b") = Some (PStr "1")
    /\ dict_get dct "b"
       = match map element_value (children_tagged "b" sample_tree) with
         | [x] => Some x
         | xs => Some (PList xs)
         end
    /\ "@" +:+ "b" <> "b".
Proof.
  apply (attribute_and_child_keys sample_tree "b" "1").
  - reflexivity.
  - simpl. left.
  - vm_compute. discriminate.
Defined.

(** * Further properties of the script *)

(** ** Outcomes of a run *)

(** X1. Serializing the mapping of an XML document never fails: for
    every document both json.dumps calls, with and without the fallback,
    succeed and give the same text, so no run of the script ends with a
    SerializationError. *)
Theorem xml_mapping_always_serializes xml_of_bytes data_path w tree :
  (exists text,
     json_dumps MyEncoder 2 (xmltodict_parse tree) = Ok text
     /\ json_dumps PlainEncoder 2 (xmltodict_parse tree) = Ok text)
  /\ (forall c, (script xml_of_bytes data_path w).1
                <> Raise (SerializationError c)).
Proof.
  split.
  - destruct (xmltodict_parse_dumps tree) as (j & _ & _ & Hmy & Hplain).
    by exists (render 2 0 j).
  - intros c. rewrite script_outcome.
    destruct (files w !! input_path data_path) as [f|]; [|done].
    destruct (readable f); [|done].
    destruct (xml_of_bytes (contents f)) as [t|]; [|done].
    simpl. by destruct (can_open_w _ w).
Qed.

(** X2. When the document is read but the output file cannot be opened
    for writing, the run fails with an IOError after the rendering was
    printed: standard output has the text, no file is changed, and the
    print is the only action. *)
Theorem unwritable_output xml_of_bytes data_path w tree :
  input_tree xml_of_bytes data_path w = Some tree ->
  can_open_w (output_path data_path) w = false ->
  exists text,
    json_dumps MyEncoder 2 (xmltodict_parse tree) = Ok text
    /\ (script xml_of_bytes data_path w).1 = Raise IOError
    /\ stdout (script xml_of_bytes data_path w).2
       = stdout w +:+ text +:+ String newline EmptyString
    /\ files (script xml_of_bytes data_path w).2 = files w
    /\ trace (script xml_of_bytes data_path w).2 = trace w ++ [EvPrint text].
Proof.
  unfold input_tree. intros Htree Hopen. rewrite script_outcome.
  destruct (files w !! input_path data_path) as [f|]; [|done].
  destruct (readable f); [|done]. rewrite Htree, Hopen.
  destruct (xmltodict_parse_dumps tree) as (j & _ & _ & Hmy & _).
  exists (render 2 0 j). by rewrite Hmy.
Qed.

Lemma unwritable_output_witness :
  exists text,
    json_dumps MyEncoder 2 (xmltodict_parse sample_tree) = Ok text
    /\ (script sample_parser "/d" readonly_world).1 = Raise IOError
    /\ stdout (script sample_parser "/d" readonly_world).2
       = stdout readonly_world +:+ text +:+ String newline EmptyString
    /\ files (script sample_parser "/d" readonly_world).2
       = files readonly_world
    /\ trace (script sample_parser "/d" readonly_world).2
       = trace readonly_world ++ [EvPrint text].
Proof.
  apply (unwritable_output sample_parser "/d" readonly_world sample_tree).
  - reflexivity.
  - reflexivity.
Defined.

(** X3. Whatever the structure and however the run ends, no file other
    than the output file is created or changed, and a failed first
    serialization leaves the whole world as it was. *)
Theorem other_files_untouched data_path raw w p :
  p <> output_path data_path ->
  files (emit data_path raw w).2 !! p = files w !! p
  /\ (forall e, json_dumps MyEncoder 2 raw = Raise e ->
        emit data_path raw w = (Raise e, w)).
Proof.
  intros Hp. rewrite emit_cases.
  destruct (json_dumps MyEncoder 2 raw) as [pretty|e|].
  - split; [|done].
    destruct (can_open_w _ w); [|done].
    destruct (json_dumps PlainEncoder 2 raw); simpl;
      by rewrite lookup_insert_ne.
  - split; [done|]. by intros e' [= <-].
  - done.
Qed.

Lemma other_files_untouched_witness :
  files (emit "/d" arr123 sample_world).2 !! "/d/votable_to_json.xml"
  = files sample_world !! "/d/votable_to_json.xml"
  /\ (forall e, json_dumps MyEncoder 2 arr123 = Raise e ->
        emit "/d" arr123 sample_world = (Raise e, sample_world)).
Proof.
  apply (other_files_untouched "/d" arr123 sample_world).
  vm_compute. discriminate.
Defined.

Lemma handles_app tr1 tr2 opened :
  handles (tr1 ++ tr2) opened
  = match handles tr1 opened with
    | Some opened' => handles tr2 opened'
    | None => None
    end.
Proof.
  revert opened. induction tr1 as [|ev tr1 IH]; intros opened; [done|].
  destruct ev; simpl; try case_bool_decide; by rewrite ?IH.
Qed.

Lemma handles_open_close p middle :
  handles middle [p] = Some [p] ->
  handles (EvOpen p :: middle ++ [EvClose p]) [] = Some [].
Proof.
  intros Hm. simpl.
  rewrite handles_app, Hm. simpl.
  rewrite bool_decide_eq_true_2 by left.
  rewrite filter_cons, decide_False by (by intros H; apply H).
  done.
Qed.

(** X4. In every run of lines 24-30, whatever the structure and however
    it ends, the output file is opened at most once, written only while
    open, and closed again: the actions of the run leave no file open. *)
Theorem output_file_always_closed data_path raw w :
  exists added,
    trace (emit data_path raw w).2 = trace w ++ added
    /\ handles added [] = Some [].
Proof.
  rewrite emit_cases.
  destruct (json_dumps MyEncoder 2 raw) as [pretty|e|];
    [|exists []; by rewrite app_nil_r..].
  destruct (can_open_w _ w); [|by exists [EvPrint pretty]].
  destruct (json_dumps PlainEncoder 2 raw) as [text|e|].
  - exists [EvPrint pretty; EvOpen (output_path data_path);
            EvWrite (output_path data_path) text;
            EvClose (output_path data_path)].
    split; [done|].
    apply (handles_open_close _ [EvWrite (output_path data_path) text]).
    simpl. by rewrite bool_decide_eq_true_2 by left.
  - exists [EvPrint pretty; EvOpen (output_path data_path);
            EvClose (output_path data_path)].
    split; [done|]. by apply (handles_open_close _ []).
  - exists [EvPrint pretty; EvOpen (output_path data_path);
            EvClose (output_path data_path)].
    split; [done|]. by apply (handles_open_close _ []).
Qed.

(** ** The two serializations *)

(** X5. Passing cls=MyEncoder changes nothing for the structures the
    stock encoder serializes: the stock encoder writes a text exactly
    when the encoder with the fallback writes that text and every value
    of the structure has a builtin type. *)
Theorem fallback_is_conservative indent o text :
  json_dumps PlainEncoder indent o = Ok text
  <-> json_dumps MyEncoder indent o = Ok text
      /\ Forall (fun x => builtin_type x = true) (values_of o).
Proof.
  pose proof (json_dumps_outcome false indent o) as Hplain.
  change (encoder_of false) with PlainEncoder in Hplain.
  split.
  - intros Hp. split; [by apply json_dumps_plain_Ok|].
    rewrite Hp in Hplain. by destruct Hplain.
  - intros [Hmy Hall].
    destruct (json_dumps PlainEncoder indent o) as [text'|e|] eqn:Hp;
      [|..|done].
    + apply json_dumps_plain_Ok in Hp. congruence.
    + destruct Hplain as (x & Hx & Hbad & _). rewrite Forall_forall in Hall.
      specialize (Hall x Hx). simpl in Hbad. congruence.
Qed.

(** X6. On structures whose strings and keys hold code points below
    U+0100 (the strings of this development), serialization loses
    nothing: two structures that the encoder with the fallback writes as
    the same text, whatever the indents, stand for the same JSON value. *)
Theorem dumps_injective indent1 indent2 o1 o2 j1 j2 text :
  to_json true o1 = Ok j1 -> float_reprs_ok j1 = true ->
  to_json true o2 = Ok j2 -> float_reprs_ok j2 = true ->
  json_dumps MyEncoder indent1 o1 = Ok text ->
  json_dumps MyEncoder indent2 o2 = Ok text ->
  j1 = j2.
Proof.
  intros Hj1 Hok1 Hj2 Hok2.
  rewrite !(json_dumps_to_json true), Hj1, Hj2. simpl.
  intros [= <-] [= Heq].
  pose proof (json_loads_render indent1 0 j1 Hok1) as H1.
  pose proof (json_loads_render indent2 0 j2 Hok2) as H2.
  rewrite Heq in H2. congruence.
Qed.

Lemma dumps_injective_witness :
  JArr [JInt 1; JInt 2; JInt 3] = JArr [JInt 1; JInt 2; JInt 3].
Proof.
  apply (dumps_injective 2 2 arr123 (PList [PInt 1; PInt 2; PInt 3])
           _ _ arr123_text); reflexivity.
Defined.

(** X7. After a run that succeeds, the output file holds a JSON object
    with a single member, named by the tag of the root element, whose
    value is the JSON value of the mapping of the root element. *)
Theorem output_is_root_object xml_of_bytes data_path w w' :
  script xml_of_bytes data_path w = (Ok tt, w') ->
  exists tree written j,
    input_tree xml_of_bytes data_path w = Some tree
    /\ contents <$> (files w' !! output_path data_path) = Some written
    /\ to_json true (element_value tree) = Ok j
    /\ json_loads written = Some (JObj [(tag_of tree, j)]).
Proof.
  intros (f & tree & j & Hf & Hr & Ht & Hj & Hok & _ & ->)%script_success.
  unfold xmltodict_parse, push_data in Hj. simpl in Hj.
  destruct (to_json true (element_value tree)) as [jv| |] eqn:Hjv; [|done..].
  simpl in Hj. injection Hj as <-.
  exists tree, (render 2 0 (JObj [(tag_of tree, jv)])), jv.
  unfold input_tree. rewrite Hf, Hr, Ht.
  unfold world_after. simpl. rewrite lookup_insert_eq.
  split; [done|]. split; [done|]. split; [done|].
  exact (json_loads_render 2 0 (JObj [(tag_of tree, jv)]) Hok).
Qed.

Lemma output_is_root_object_witness :
  exists tree written j,
    input_tree sample_parser "/d" sample_world = Some tree
    /\ contents <$> (files (script sample_parser "/d" sample_world).2
                      !! output_path "/d") = Some written
    /\ to_json true (element_value tree) = Ok j
    /\ json_loads written = Some (JObj [(tag_of tree, j)]).
Proof.
  apply (output_is_root_object sample_parser "/d" sample_world).
  vm_compute. reflexivity.
Defined.

(** ** The text is ASCII *)












(** ** Which value the error names *)

Lemma find_app_cases {A} (f : A -> bool) l1 l2 :
  find f (l1 ++ l2)
  = match find f l1 with
    | Some x => Some x
    | None => find f l2
    end.
Proof.
  induction l1 as [|x l1 IH]; [done|]. simpl. by destruct (f x).
Qed.

Lemma first_rejected_items {A B} fallback (f : A -> result B)
    (vals : A -> list pyvalue) l :
  Forall (fun x =>
            match find (fun v => negb (accepts fallback v)) (vals x) with
            | Some y => f x = Raise (SerializationError (class_of y))
            | None => exists j, f x = Ok j
            end) l ->
  match find (fun v => negb (accepts fallback v)) (flat_map vals l) with
  | Some y => mapM f l = Raise (SerializationError (class_of y))
  | None => exists js, mapM f l = Ok js
  end.
Proof.
  induction 1 as [|x l Hx _ IH]; [by exists []|].
  simpl flat_map. rewrite find_app_cases, mapM_result_cons.
  destruct (find _ (vals x)) as [y|].
  - by rewrite Hx.
  - destruct Hx as [j ->]. simpl.
    destruct (find _ (flat_map vals l)) as [y|].
    + by rewrite IH.
    + destruct IH as [js ->]. by eexists.
Qed.

Lemma to_json_first_rejected fallback :
  forall o,
    match first_rejected fallback o with
    | Some y => to_json fallback o = Raise (SerializationError (class_of y))
    | None => exists j, to_json fallback o = Ok j
    end.
Proof.
  unfold first_rejected.
  apply (pyvalue_ind
    (fun o =>
       match find (fun v => negb (accepts fallback v)) (values_of o) with
       | Some y => to_json fallback o = Raise (SerializationError (class_of y))
       | None => exists j, to_json fallback o = Ok j
       end)
    (fun a =>
       match find (fun v => negb (accepts fallback v)) (items_of a) with
       | Some y =>
           nd_to_json fallback a = Raise (SerializationError (class_of y))
       | None => exists j, nd_to_json fallback a = Ok j
       end)).
  all: try (intros; destruct fallback; simpl; first [by eexists|done]).
  - intros lst IH.
    pose proof (first_rejected_items fallback _ values_of lst IH) as Hm.
    assert (accepts fallback (PList lst) = true) as Hacc
      by (by destruct fallback).
    simpl. rewrite Hacc. simpl.
    destruct (find _ (flat_map values_of lst)) as [y|].
    + by rewrite Hm.
    + destruct Hm as [js ->]. by eexists.
  - intros dct IH.
    pose proof (first_rejected_items fallback
      (fun kv => j ← to_json fallback kv.2; Ok (kv.1, j))
      (fun kv => values_of kv.2) dct) as Hm.
    assert (accepts fallback (PDict dct) = true) as Hacc
      by (by destruct fallback).
    simpl. rewrite Hacc. simpl.
    destruct (find _ (flat_map _ dct)) as [y|].
    + rewrite Hm; [done|]. eapply Forall_impl; [exact IH|].
      intros kv Hkv. simpl in Hkv |- *.
      destruct (find _ (values_of kv.2)) as [z|]; [by rewrite Hkv|].
      destruct Hkv as [j ->]. by eexists.
    + destruct Hm as [js ->]; [|by eexists].
      eapply Forall_impl; [exact IH|].
      intros kv Hkv. simpl in Hkv |- *.
      destruct (find _ (values_of kv.2)) as [z|]; [by rewrite Hkv|].
      destruct Hkv as [j ->]. by eexists.
  - intros k f. destruct fallback, k; simpl; first [by eexists|done].
  - intros rows IH.
    pose proof (first_rejected_items fallback _ items_of rows IH) as Hm.
    simpl. destruct (find _ (flat_map items_of rows)) as [y|].
    + by rewrite Hm.
    + destruct Hm as [js ->]. by eexists.
Qed.

(** X9. With the fallback, a serialization that fails reports the class
    of the first object of an unsupported class, in document order;
    without it, it fails at the first value that is such an object or a
    numpy integer, floating (not float64) or ndarray, and reports that
    class when the value is such an object.  When there is no such value
    the serialization succeeds. *)
Theorem error_names_first_rejected indent o :
  match first_rejected true o with
  | Some y =>
      exists c, y = PObject c
        /\ json_dumps MyEncoder indent o = Raise (SerializationError c)
  | None => exists text, json_dumps MyEncoder indent o = Ok text
  end
  /\ match first_rejected false o with
     | Some y =>
         (exists c, json_dumps PlainEncoder indent o
                    = Raise (SerializationError c))
         /\ (forall c, y = PObject c ->
               json_dumps PlainEncoder indent o
               = Raise (SerializationError c))
     | None => exists text, json_dumps PlainEncoder indent o = Ok text
     end.
Proof.
  split.
  - rewrite (json_dumps_to_json true).
    pose proof (to_json_first_rejected true o) as H.
    destruct (first_rejected true o) as [y|] eqn:Hy.
    + unfold first_rejected in Hy. apply find_some in Hy as [_ Hbad].
      destruct y; try done. eexists. split; [done|]. by rewrite H.
    + destruct H as [j ->]. by eexists.
  - rewrite (json_dumps_to_json false).
    pose proof (to_json_first_rejected false o) as H.
    destruct (first_rejected false o) as [y|].
    + rewrite H. split; [by eexists|]. by intros c ->.
    + destruct H as [j ->]. by eexists.
Qed.

Example first_rejected_in_document_order :
  json_dumps MyEncoder 2
    (PDict [("a", PList [arr123; PObject "set"]); ("b", PObject "bytes")])
  = Raise (SerializationError "set")
  /\ json_dumps PlainEncoder 2
       (PDict [("a", PList [arr123; PObject "set"]); ("b", PObject "bytes")])
     = Raise (SerializationError "ndarray").
Proof. split; reflexivity. Qed.

(** ** The directory of the script *)

Lemma endswith_sep_rstrip s : endswith_sep (rstrip_sep s) = false.
Proof.
  induction s as [|c s IH]; [done|]. simpl.
  destruct (rstrip_sep s) as [|c' r] eqn:Hr; simpl.
  - destruct (is_sep c) eqn:Hc; simpl; done.
  - exact IH.
Qed.

Lemma rstrip_sep_slash d :
  endswith_sep d = false -> rstrip_sep (d +:+ "/") = d.
Proof.
  induction d as [|c d IH]; [done|]. rewrite str_app_cons. simpl.
  destruct d as [|c' d'].
  - intros ->. done.
  - intros Hd. by rewrite IH.
Qed.

Lemma rstrip_sep_empty d :
  rstrip_sep d = EmptyString -> is_empty d || endswith_sep d = true.
Proof.
  induction d as [|c d IH]; [done|]. simpl.
  destruct (rstrip_sep d) as [|c' r] eqn:Hr; simpl; [|done].
  destruct (is_sep c) eqn:Hc; [|done]. intros _.
  destruct d as [|c' d']; [done|]. by apply IH.
Qed.

Lemma dirname_join d name :
  startswith_sep name = false ->
  all_chars (fun c => negb (is_sep c)) name = true ->
  endswith_sep d = false \/ rstrip_sep d = EmptyString ->
  dirname (path_join d name) = d.
Proof.
  intros Hstart Hname Hd. unfold path_join. rewrite Hstart.
  destruct (is_empty d || endswith_sep d) eqn:Hcase.
  - unfold dirname. rewrite split_last_sep_prefix by done. simpl.
    destruct d as [|c d']; [done|].
    change (endswith_sep (String c d') = true) in Hcase.
    destruct Hd as [Hd|Hd]; [congruence|]. by rewrite Hd.
  - apply orb_false_elim in Hcase as [Hne Hends].
    unfold dirname. rewrite <- str_app_assoc.
    rewrite split_last_sep_prefix; [|by rewrite endswith_sep_slash, orb_true_r|done].
    simpl. rewrite rstrip_sep_slash, Hne by done.
    by destruct d.
Qed.

(** X10. The directory the script computes for itself (a result of
    os.path.dirname) is the directory of both its files: joining a file
    name to it and taking the directory again gives it back. *)
Theorem files_in_script_directory script_file :
  dirname (input_path (dirname script_file)) = dirname script_file
  /\ dirname (output_path (dirname script_file)) = dirname script_file.
Proof.
  assert (endswith_sep (dirname script_file) = false
          \/ rstrip_sep (dirname script_file) = EmptyString) as Hd.
  { unfold dirname.
    destruct (split_last_sep script_file).1 as [|c h] eqn:Hh; [by left|].
    change (negb (is_empty (String c h))) with true.
    destruct (rstrip_sep (String c h)) as [|c' r] eqn:Hr; cbn [is_empty negb andb].
    - by right.
    - left. rewrite <- Hr. apply endswith_sep_rstrip. }
  split; by apply dirname_join.
Qed.

Example script_directory_of_paths :
  dirname "/opt/app/convert_lm.py" = "/opt/app"
  /\ dirname "/convert_lm.py" = "/"
  /\ dirname "convert_lm.py" = EmptyString
  /\ input_path (dirname "/convert_lm.py") = "/votable_to_json.xml"
  /\ input_path (dirname "convert_lm.py") = "votable_to_json.xml".
Proof. repeat split; reflexivity. Qed.

(** X11. However a run ends, it leaves the input file as it was: the
    script never writes to the file it reads. *)
Theorem input_file_never_changed xml_of_bytes data_path w :
  files (script xml_of_bytes data_path w).2 !! input_path data_path
  = files w !! input_path data_path.
Proof.
  rewrite script_outcome.
  destruct (files w !! input_path data_path) as [f|] eqn:Hf; [|done].
  destruct (readable f); [|done].
  destruct (xml_of_bytes (contents f)) as [tree|]; [|done].
  simpl. destruct (can_open_w _ w); simpl; [|done].
  rewrite lookup_insert_ne; [done|].
  intros H. by apply (input_output_differ data_path).
Qed.

(** ** Keys of the mapping *)

Lemma dict_set_keys d k v x :
  x ∈ map fst (dict_set d k v) -> x = k \/ x ∈ map fst d.
Proof.
  induction d as [|[k0 v0] d IH]; simpl.
  - intros ->%list_elem_of_singleton. by left.
  - destruct (String.eqb_spec k0 k) as [->|Hne]; simpl.
    + intros [->|H]%elem_of_cons; [by left|]. right. by right.
    + intros [->|H]%elem_of_cons; [right; by left|].
      destruct (IH H); [by left|]. right. by right.
Qed.

Lemma dict_set_NoDup d k v :
  NoDup (map fst d) -> NoDup (map fst (dict_set d k v)).
Proof.
  induction d as [|[k0 v0] d IH]; simpl.
  - intros _. apply NoDup_singleton.
  - intros [Hk0 Hd]%NoDup_cons.
    destruct (String.eqb_spec k0 k) as [->|Hne]; simpl.
    + by apply NoDup_cons.
    + apply NoDup_cons. split; [|by apply IH].
      intros [->|H]%dict_set_keys; done.
Qed.

Lemma dict_set_unique d k v :
  unique_keys (PDict d) = true -> unique_keys v = true ->
  unique_keys (PDict (dict_set d k v)) = true.
Proof.
  simpl. intros [Hnd Hd]%andb_prop Hv. apply bool_decide_eq_true in Hnd.
  apply andb_true_intro. split.
  - by apply bool_decide_eq_true, dict_set_NoDup.
  - clear Hnd. induction d as [|[k0 v0] d IH]; simpl in *.
    + by rewrite Hv.
    + apply andb_prop in Hd as [Hv0 Hd].
      destruct (String.eqb k0 k); simpl; [by rewrite Hv, Hd|].
      by rewrite Hv0, IH.
Qed.

Lemma dict_get_unique d k v :
  unique_keys (PDict d) = true -> dict_get d k = Some v ->
  unique_keys v = true.
Proof.
  simpl. intros [_ Hd]%andb_prop.
  induction d as [|[k0 v0] d IH]; simpl in *; [done|].
  apply andb_prop in Hd as [Hv0 Hd]. destruct (String.eqb k0 k).
  - by intros [= <-].
  - by apply IH.
Qed.

Lemma push_data_unique item k v :
  unique_keys (PDict (from_option id [] item)) = true ->
  unique_keys v = true ->
  unique_keys (PDict (push_data item k v)) = true.
Proof.
  intros Hitem Hv. unfold push_data.
  destruct (dict_get (from_option id [] item) k) as [x|] eqn:Hget.
  - pose proof (dict_get_unique _ _ _ Hitem Hget) as Hx.
    assert (forall a, unique_keys a = true ->
              unique_keys (PList [a; v]) = true) as Hpair.
    { intros a Ha. change (unique_keys a && (unique_keys v && true) = true).
      by rewrite Ha, Hv. }
    destruct x; apply dict_set_unique; try done; try by apply Hpair.
    change (forallb unique_keys (lst ++ [v]) = true).
    rewrite forallb_app. change (forallb unique_keys lst)
      with (unique_keys (PList lst)). rewrite Hx. simpl. by rewrite Hv.
  - by apply dict_set_unique.
Qed.

Lemma attrs_dict_unique attrib d :
  unique_keys (PDict d) = true ->
  unique_keys (PDict (attrs_dict attrib d)) = true.
Proof.
  revert d. induction attrib as [|[a v] l IH]; intros d Hd; [done|].
  apply IH. by apply dict_set_unique.
Qed.

Lemma walk_unique children item :
  Forall (fun c => unique_keys (element_value c) = true) children ->
  unique_keys (PDict (from_option id [] item)) = true ->
  unique_keys (PDict (from_option id []
                        (fold_left push_child children item))) = true.
Proof.
  intros Hch. revert item.
  induction Hch as [|c l Hc _ IH]; intros item Hitem; [done|].
  simpl fold_left. apply IH. by apply push_data_unique.
Qed.

Lemma element_value_unique e : unique_keys (element_value e) = true.
Proof.
  induction e as [tag attrib text children IH] using element_ind.
  rewrite element_value_unfold.
  assert (unique_keys (PDict (from_option id []
            (fold_left push_child (map fst children) (start_item attrib))))
          = true) as Hitem.
  { apply walk_unique.
    - by apply Forall_map.
    - rewrite start_item_dict. by apply attrs_dict_unique. }
  unfold end_value.
  destruct (fold_left _ _ _) as [it|]; destruct (cdata _) as [s|];
    try done.
  by apply (push_data_unique (Some it)).
Qed.

Lemma mapM_result_Ok_Forall2 {A B} (f : A -> result B) l ys :
  mapM f l = Ok ys -> Forall2 (fun x y => f x = Ok y) l ys.
Proof.
  revert ys. induction l as [|x l IH]; intros ys.
  - intros [= <-]. constructor.
  - rewrite mapM_result_cons.
    destruct (f x) as [y| |] eqn:Hy; [|done..]. simpl.
    destruct (mapM f l) as [k| |]; [|done..]. simpl.
    intros [= <-]. constructor; [done|by apply IH].
Qed.

Lemma to_json_unique fallback :
  forall o j, text_only o = true -> unique_keys o = true ->
    to_json fallback o = Ok j -> unique_names j = true.
Proof.
  apply (pyvalue_ind
    (fun o => forall j, text_only o = true -> unique_keys o = true ->
       to_json fallback o = Ok j -> unique_names j = true)
    (fun a => True)); try done.
  - by intros j _ _ [= <-].
  - by intros s j _ _ [= <-].
  - intros lst IH j Ht Hu. simpl in *.
    destruct (mapM (to_json fallback) lst) as [js| |] eqn:Hjs; [|done..].
    intros [= <-]. simpl. apply mapM_result_Ok_Forall2 in Hjs.
    clear -IH Ht Hu Hjs.
    induction Hjs as [|x y l ys Hxy _ IH']; [done|]. simpl in *.
    apply andb_prop in Ht as [Htx Ht]. apply andb_prop in Hu as [Hux Hu].
    apply Forall_cons in IH as [IHx IH].
    by rewrite (IHx y Htx Hux Hxy), IH'.
  - intros dct IH j Ht Hu. simpl in *.
    destruct (mapM _ dct) as [js| |] eqn:Hjs; [|done..].
    intros [= <-]. simpl. apply mapM_result_Ok_Forall2 in Hjs.
    apply andb_prop in Hu as [Hnd Hu].
    assert (map fst js = map fst dct) as Hkeys.
    { clear -Hjs. induction Hjs as [|x y l ys Hxy _ IH']; [done|].
      simpl. destruct (to_json fallback x.2); [|done..].
      injection Hxy as <-. simpl. by rewrite IH'. }
    rewrite Hkeys, Hnd. simpl.
    clear -IH Ht Hu Hjs.
    induction Hjs as [|x y l ys Hxy _ IH']; [done|]. simpl in *.
    apply andb_prop in Ht as [Htx Ht]. apply andb_prop in Hu as [Hux Hu].
    apply Forall_cons in IH as [IHx IH].
    destruct (to_json fallback x.2) as [jx| |] eqn:Hjx; [|done..].
    injection Hxy as <-. simpl.
    by rewrite (IHx jx Htx Hux eq_refl), IH'.
Qed.

(** X12. After a run that succeeds, every object of the JSON value of
    the output file has pairwise distinct member names, however often
    tags and attribute names repeat in the document. *)
Theorem output_has_unique_names xml_of_bytes data_path w w' :
  script xml_of_bytes data_path w = (Ok tt, w') ->
  exists written j,
    contents <$> (files w' !! output_path data_path) = Some written
    /\ json_loads written = Some j
    /\ unique_names j = true.
Proof.
  intros (f & tree & j & _ & _ & _ & Hj & Hok & _ & ->)%script_success.
  exists (render 2 0 j), j.
  unfold world_after. simpl. rewrite lookup_insert_eq.
  split; [done|]. split; [by apply json_loads_render|].
  apply (to_json_unique true (xmltodict_parse tree)); [|
    |done].
  - apply xmltodict_parse_text_only.
  - unfold xmltodict_parse. apply (push_data_unique None); [done|].
    apply element_value_unique.
Qed.

Lemma output_has_unique_names_witness :
  exists written j,
    contents <$> (files (script sample_parser "/d" sample_world).2
                  !! output_path "/d") = Some written
    /\ json_loads written = Some j
    /\ unique_names j = true.
Proof.
  apply (output_has_unique_names sample_parser "/d" sample_world).
  vm_compute. reflexivity.
Defined.
